(** * Verification of [subdomain-enum.js]

    A shallow embedding of the subdomain enumerator of the Node.js security
    tools: the certificate-transparency source [fetchCrtSh], the per-name
    resolution [checkSubdomain], and the driver [enumerateSubdomains] with
    its candidate aggregation and batched resolution loop.

    Conventions of the embedding.
    - A JavaScript string is a [string]: a sequence of code units, here
      restricted to the 8-bit range (host names are ASCII).  Comparison
      by code unit is [String.le].
    - A computation that may throw, or whose promise may stay pending,
      yields an [outcome].  [try { .. } catch { .. }] is [try_catch].
    - The environment (the HTTP endpoint, the DNS resolver, the order in
      which the promises of a batch settle, the clock) is a record passed
      explicitly.
    - Console output of the human-readable mode is a side channel that
      never influences the returned report and is not modelled. *)

From Stdlib Require Import Ascii String.
From stdpp Require Import base decidable option list strings sorting pretty.

Local Open Scope list_scope.
#[local] Set Warnings "-register-all,-clear-no-such-hyp".
Local Open Scope stdpp_scope.

(** ** JavaScript string primitives *)

Module JsString.

Definition code (c : ascii) : nat := nat_of_ascii c.

(** [String.prototype.toLowerCase] on one code unit of the 8-bit range:
    A-Z, and the Latin-1 capitals U+00C0-U+00D6 and U+00D8-U+00DE. *)
Definition lowerChar (c : ascii) : ascii :=
  let n := code c in
  if (65 <=? n) && (n <=? 90) || (192 <=? n) && (n <=? 214)
     || (216 <=? n) && (n <=? 222)
  then ascii_of_nat (n + 32) else c.

Fixpoint toLowerCase (s : string) : string :=
  match s with
  | EmptyString => EmptyString
  | String c s' => String (lowerChar c) (toLowerCase s')
  end.

(** White space and line terminators removed by [trim] (8-bit range):
    TAB, LF, VT, FF, CR, SP and NBSP. *)
Definition isWhiteSpace (c : ascii) : bool :=
  let n := code c in
  (9 <=? n) && (n <=? 13) || (n =? 32) || (n =? 160).

Fixpoint trimStart (s : string) : string :=
  match s with
  | EmptyString => EmptyString
  | String c s' => if isWhiteSpace c then trimStart s' else s
  end.

Fixpoint trimEnd (s : string) : string :=
  match s with
  | EmptyString => EmptyString
  | String c s' =>
      match trimEnd s' with
      | EmptyString => if isWhiteSpace c then EmptyString else String c EmptyString
      | t => String c t
      end
  end.

Definition trim (s : string) : string := trimEnd (trimStart s).

Fixpoint skip (n : nat) (s : string) : string :=
  match n, s with
  | 0, _ => s
  | S _, EmptyString => EmptyString
  | S n', String _ s' => skip n' s'
  end.

Definition startsWith (s p : string) : bool := String.prefix p s.

(** [s.endsWith(d)]: the last [d.length] code units of [s] are [d]. *)
Definition endsWith (s d : string) : bool :=
  if decide (String.length d <= String.length s)
  then bool_decide (skip (String.length s - String.length d) s = d)
  else false.

(** [s.includes(p)]: [p] occurs somewhere in [s]. *)
Fixpoint includes (s p : string) : bool :=
  startsWith s p ||
  match s with
  | EmptyString => false
  | String _ s' => includes s' p
  end.

(** [s.replace(p, r)] with a string pattern: only the first occurrence
    of [p], wherever it is, is replaced. *)
Fixpoint replace (s p r : string) : string :=
  if startsWith s p then r +:+ skip (String.length p) s
  else match s with
       | EmptyString => EmptyString
       | String c s' => String c (replace s' p r)
       end.

(** [s.split(sep)] for a one-unit separator; never the empty list. *)
Fixpoint split (s : string) (sep : ascii) : list string :=
  match s with
  | EmptyString => [EmptyString]
  | String c s' =>
      if decide (c = sep) then EmptyString :: split s' sep
      else match split s' sep with
           | h :: t => String c h :: t
           | [] => [String c EmptyString]
           end
  end.

(** Iterating a string yields its units as one-unit strings. *)
Fixpoint units (s : string) : list string :=
  match s with
  | EmptyString => []
  | String c s' => String c EmptyString :: units s'
  end.

End JsString.

Import JsString.

Definition LF : ascii := ascii_of_nat 10.
Definition STAR : ascii := ascii_of_nat 42.

(** ** Completions: return, throw, or never settle *)

Inductive js_error : Type :=
  | TypeError
  | SyntaxError
  | NetworkError
  | TimeoutError
  | DnsError (errcode : string).

Inductive outcome (A : Type) : Type :=
  | Done (a : A)
  | Raise (e : js_error)
  | Pending.
Arguments Done {A} a.
Arguments Raise {A} e.
Arguments Pending {A}.

#[global] Instance outcome_ret : MRet outcome := fun A a => Done a.

#[global] Instance outcome_bind : MBind outcome := fun A B k m =>
  match m with
  | Done a => k a
  | Raise e => Raise e
  | Pending => Pending
  end.

(** [try { body } catch { return handler }]: only a throw is caught. *)
Definition try_catch {A} (body : outcome A) (handler : A) : outcome A :=
  match body with
  | Raise _ => Done handler
  | other => other
  end.

(** [for (const x of xs) body] threading the mutable state [st]. *)
Fixpoint for_of {A S} (xs : list A) (body : S -> A -> outcome S) (st : S)
  : outcome S :=
  match xs with
  | [] => Done st
  | x :: xs' => st' ← body st x; for_of xs' body st'
  end.

(** ** Values produced by [response.json()] *)

Inductive json : Type :=
  | JNull
  | JBool (b : bool)
  | JNumber (literal : string)
  | JString (s : string)
  | JArray (items : list json)
  | JObject (props : list (string * json)).

(** Own property [key] of a parsed object; when the text repeats a key the
    last occurrence is the one [JSON.parse] keeps. *)
Fixpoint own_property (key : string) (props : list (string * json)) : option json :=
  match props with
  | [] => None
  | (k, v) :: rest =>
      match own_property key rest with
      | Some v' => Some v'
      | None => if decide (k = key) then Some v else None
      end
  end.

(** [entry.name_value]; [None] is [undefined].  Reading a property of
    [null] throws, of any other non-object it is [undefined]. *)
Definition get_name_value (entry : json) : outcome (option json) :=
  match entry with
  | JNull => Raise TypeError
  | JObject props => Done (own_property "name_value" props)
  | _ => Done None
  end.

(** [name.split('\n')]: only a string has a [split] method. *)
Definition call_split (name : option json) : outcome (list string) :=
  match name with
  | Some (JString s) => Done (split s LF)
  | _ => Raise TypeError
  end.

(** The values a [for ... of] loop over [data] visits. *)
Definition iterate (data : json) : outcome (list json) :=
  match data with
  | JArray items => Done items
  | JString s => Done (JString <$> units s)
  | _ => Raise TypeError
  end.

(** ** Insertion-ordered [Set] of strings *)

Definition set_add (s : list string) (x : string) : list string :=
  if decide (x ∈ s) then s else s ++ [x].

(** [new Set(iterable)] *)
Definition new_Set (xs : list string) : list string := foldl set_add [] xs.

(** ** The HTTP collaborator *)

Record response : Type := {
  ok : bool;
  body_json : outcome json          (* what [response.json()] settles to *)
}.

Definition crtShUrl (domain : string) : string :=
  "https://crt.sh/?q=%." +:+ domain +:+ "&output=json".

(** ** [fetchCrtSh] *)

(** [n.replace('*.', '').trim().toLowerCase()] *)
Definition normalizeName (n : string) : string :=
  toLowerCase (trim (replace n "*." "")).

(** [n.endsWith(domain) && !n.includes('*')] *)
Definition keepName (domain n : string) : bool :=
  endsWith n domain && negb (includes n "*").

(** [for (const n of names) if (...) subdomains.add(n)] *)
Definition addNames (domain : string) (subdomains names : list string) : list string :=
  foldl (fun acc n => if keepName domain n then set_add acc n else acc)
        subdomains names.

(** The body of [for (const entry of data)]. *)
Definition visitEntry (domain : string) (subdomains : list string) (entry : json)
  : outcome (list string) :=
  name ← get_name_value entry;
  raw ← call_split name;
  Done (addNames domain subdomains (normalizeName <$> raw)).

(** The [try] block, given what [fetch] settled to. *)
Definition fetchCrtSh_body (domain : string) (fetched : outcome response)
  : outcome (list string) :=
  resp ← fetched;
  if negb (ok resp) then Done []
  else
    data ← body_json resp;
    entries ← iterate data;
    for_of entries (visitEntry domain) [].

(** [try { ... } catch (error) { return []; }] *)
Definition fetchCrtSh (fetch : string -> outcome response) (domain : string)
  : outcome (list string) :=
  try_catch (fetchCrtSh_body domain (fetch (crtShUrl domain))) [].

(** ** The DNS collaborator and [checkSubdomain] *)

Module Check.
(** [{ subdomain, addresses, alive }] *)
Record t : Type := make {
  subdomain : string;
  addresses : list string;
  alive : bool
}.
End Check.

(** [try { addresses = await resolve4(subdomain); return {.., alive: true} }
    catch { return {.., addresses: [], alive: false} }] *)
Definition checkSubdomain (resolve4 : string -> outcome (list string))
    (subdomain : string) : outcome Check.t :=
  try_catch
    (addresses ← resolve4 subdomain;
     Done (Check.make subdomain addresses true))
    (Check.make subdomain [] false).

(** ** [Promise.all]

    The promises of a batch settle one at a time, in an order chosen by
    the environment.  [Promise.all] stores the value of the promise with
    index [i] in slot [i] of its array and resolves when the count of
    outstanding promises reaches zero; the first rejection rejects it;
    a promise that never settles leaves it pending. *)

Inductive all_state (A : Type) : Type :=
  | Waiting (values : list (option A)) (remaining : nat)
  | Resolved (values : list (option A))
  | Rejected (e : js_error).
Arguments Waiting {A} values remaining.
Arguments Resolved {A} values.
Arguments Rejected {A} e.

Definition all_start {A} (promises : list (outcome A)) : all_state A :=
  match promises with
  | [] => Resolved []
  | _ => Waiting (replicate (length promises) None) (length promises)
  end.

(** Promise number [i] settles. *)
Definition all_settle {A} (promises : list (outcome A)) (st : all_state A)
    (i : nat) : all_state A :=
  match st with
  | Waiting values remaining =>
      match promises !! i, values !! i with
      | Some (Done v), Some None =>
          let values' := <[i := Some v]> values in
          if decide (remaining = 1) then Resolved values'
          else Waiting values' (remaining - 1)
      | Some (Raise e), Some None => Rejected e
      | _, _ => st
      end
  | _ => st
  end.

Definition Promise_all {A} (order : list nat) (promises : list (outcome A))
  : outcome (list (option A)) :=
  match foldl (all_settle promises) (all_start promises) order with
  | Resolved values => Done values
  | Rejected e => Raise e
  | Waiting _ _ => Pending
  end.

(** ** The report *)

Module Alive.
(** [{ subdomain, addresses }] *)
Record t : Type := make {
  subdomain : string;
  addresses : list string
}.
End Alive.

Module Summary.
Record t : Type := make {
  total_found : nat;
  alive_count : nat
}.
End Summary.

Module Report.
Record t : Type := make {
  domain : string;
  timestamp : string;
  sources : list (string * nat);
  subdomains : list string;
  alive : list Alive.t;
  summary : Summary.t
}.
End Report.

(** ** The environment of one run *)

Record world : Type := {
  fetch : string -> outcome response;
  resolve4 : string -> outcome (list string);
  (* order in which the promises of the batch starting at index [i],
     of [n] promises, settle *)
  settle_order : nat -> nat -> list nat;
  now : string
}.

(** ** [enumerateSubdomains] *)

Definition COMMON_SUBDOMAINS : list string :=
  [ "www"; "mail"; "ftp"; "webmail"; "smtp"; "pop"; "ns1"; "ns2"; "dns";
    "vpn"; "remote"; "api"; "app"; "dev"; "staging"; "test"; "beta"; "admin";
    "portal"; "secure"; "login"; "sso"; "auth"; "gateway"; "cdn"; "static";
    "assets"; "img"; "images"; "media"; "blog"; "shop"; "store"; "support";
    "help"; "docs"; "status"; "git"; "gitlab"; "jenkins"; "ci"; "jira";
    "confluence"; "wiki"; "forum"; "mx"; "mx1"; "mx2"; "ns"; "dns1"; "dns2";
    "m"; "mobile"; "internal"; "intranet"; "extranet"; "db"; "database";
    "mysql"; "postgres"; "mongo"; "redis"; "elastic"; "kibana"; "grafana";
    "monitor"; "nagios"; "prometheus"; "logs"; "splunk"; "s3"; "storage";
    "backup"; "old"; "new"; "legacy"; "demo"; "sandbox"; "uat"; "qa"; "prod" ].

(** [words.map(s => `${s}.${targetDomain}`)] *)
Definition bruteforce (words : list string) (targetDomain : string) : list string :=
  (fun s => s +:+ "." +:+ targetDomain) <$> words.

(** [Array.prototype.sort()] without comparator on an array of strings:
    ascending by code units. *)
Definition sort (xs : list string) : list string := merge_sort String.le xs.

(** Combine and dedupe:
    [[...new Set([targetDomain, ...crtSubdomains, ...bruteSubdomains])].sort()] *)
Definition combineAndDedupe (targetDomain : string) (crtSubdomains bruteSubdomains : list string)
  : list string :=
  sort (new_Set (targetDomain :: crtSubdomains ++ bruteSubdomains)).

(** [xs.slice(i, j)] for [0 <= i <= j] *)
Definition slice {A} (xs : list A) (i j : nat) : list A := take (j - i) (drop i xs).

(** The inner loop: append the alive results, in array order. *)
Definition pushAlive (alive : list Alive.t) (r : option Check.t)
  : outcome (list Alive.t) :=
  match r with
  | None => Raise TypeError          (* reading [.alive] of [undefined] *)
  | Some r =>
      if Check.alive r
      then Done (alive ++ [Alive.make (Check.subdomain r) (Check.addresses r)])
      else Done alive
  end.

(** [for (let i = ...; i < allSubdomains.length; i += batchSize)].  Each
    unit of [fuel] pays for one iteration; a loop still running when the
    fuel is spent has not returned. *)
Fixpoint resolveLoop (w : world) (batchSize : nat) (allSubdomains : list string)
    (fuel i : nat) (alive : list Alive.t) : outcome (list Alive.t) :=
  if decide (i < length allSubdomains) then
    match fuel with
    | 0 => Pending
    | S fuel' =>
        let batch := slice allSubdomains i (i + batchSize) in
        results ← Promise_all (settle_order w i (length batch))
                              (checkSubdomain (resolve4 w) <$> batch);
        alive' ← for_of results pushAlive alive;
        resolveLoop w batchSize allSubdomains fuel' (i + batchSize) alive'
    end
  else Done alive.

(** The function with its two constants, the word list and the batch
    size, as parameters. *)
Definition enumerateWith (words : list string) (batchSize : nat)
    (w : world) (targetDomain : string) : outcome Report.t :=
  crtSubdomains ← fetchCrtSh (fetch w) targetDomain;
  let bruteSubdomains := bruteforce words targetDomain in
  let sources := [("crt.sh", length crtSubdomains);
                  ("bruteforce", length bruteSubdomains)] in
  let allSubdomains := combineAndDedupe targetDomain crtSubdomains bruteSubdomains in
  alive ← resolveLoop w batchSize allSubdomains (length allSubdomains) 0 [];
  Done (Report.make targetDomain (now w) sources allSubdomains alive
          (Summary.make (length allSubdomains) (length alive))).

Definition enumerateSubdomains : world -> string -> outcome Report.t :=
  enumerateWith COMMON_SUBDOMAINS 20.

(** ** Vocabulary of the statements *)

(** Number of wildcard units in a name. *)
Fixpoint stars (s : string) : nat :=
  match s with
  | EmptyString => 0
  | String c s' => (if decide (c = STAR) then 1 else 0) + stars s'
  end.

(** A record whose [name_value] is present and is a string. *)
Definition name_value_is_string (entry : json) : bool :=
  match entry with
  | JObject props =>
      match own_property "name_value" props with
      | Some (JString _) => true
      | _ => false
      end
  | _ => false
  end.

(** The ways the certificate-transparency request can fail: the request
    itself rejects (network error, timeout), the status is not a success,
    the body does not parse, or the parsed body is not iterable. *)
Definition source_failed (fetched : outcome response) : Prop :=
  (exists e, fetched = Raise e) \/
  (exists r, fetched = Done r /\
     (ok r = false \/ (exists e, body_json r = Raise e) \/
      (exists data e, body_json r = Done data /\ iterate data = Raise e))).

(** Every promise of every batch settles exactly once. *)
Definition settles_once (w : world) : Prop :=
  forall i n, settle_order w i n ≡ₚ seq 0 n.

(** The resolver answers every query, with addresses or with an error. *)
Definition resolver_answers (w : world) : Prop :=
  forall name, resolve4 w name <> Pending.

(** What [checkSubdomain] settles to for a resolver that answers. *)
Definition classify (w : world) (subdomain : string) : Check.t :=
  match resolve4 w subdomain with
  | Done addresses => Check.make subdomain addresses true
  | _ => Check.make subdomain [] false
  end.

Definition resolves (w : world) (subdomain : string) : bool :=
  Check.alive (classify w subdomain).

(** The alive candidates of [candidates], in the order of [candidates]. *)
Definition alive_of (w : world) (candidates : list string) : list Alive.t :=
  (fun s => Alive.make s (Check.addresses (classify w s)))
    <$> filter (fun s => resolves w s = true) candidates.

(** Names without repetition, each of which passed the source's filter. *)
Definition kept_only (domain : string) (names : list string) : Prop :=
  NoDup names /\ forall n, n ∈ names -> keepName domain n = true.

(** The array of [Promise.all] once the promises listed in [settled]
    have fulfilled with the values [vs]. *)
Definition slots {A} (vs : list A) (settled : list nat) : list (option A) :=
  imap (fun i v => if decide (i ∈ settled) then Some v else None) vs.

(** The same world with another settlement order. *)
Definition with_order (w : world) (order : nat -> nat -> list nat) : world :=
  {| fetch := fetch w; resolve4 := resolve4 w;
     settle_order := order; now := now w |}.

(** ** Sample collaborators *)

(** A successful response whose records carry the given [name_value]s. *)
Definition serving (name_values : list string) : string -> outcome response :=
  fun _ =>
    Done {| ok := true;
            body_json :=
              Done (JArray ((fun n => JObject [("name_value", JString n)])
                              <$> name_values)) |}.

(** A resolver that knows [example.com] only. *)
Definition example_resolver (name : string) : outcome (list string) :=
  if decide (name = "example.com") then Done ["93.184.216.34"]
  else Raise (DnsError "ENOTFOUND").

(** The scenario of the design notes; each batch settles last to first. *)
Definition sample_world : world :=
  {| fetch := serving ["www.example.com"; "*.api.example.com"; "EVIL-example.com"];
     resolve4 := example_resolver;
     settle_order := fun _ n => reverse (seq 0 n);
     now := "2024-01-01T00:00:00.000Z" |}.

(** The same scenario with a certificate-transparency request that
    times out. *)
Definition offline_world : world :=
  {| fetch := fun _ => Raise TimeoutError;
     resolve4 := example_resolver;
     settle_order := fun _ n => seq 0 n;
     now := "2024-01-01T00:00:00.000Z" |}.

(** ** The command line *)

(** [args.includes('--json')] *)
Definition jsonOutputOf (args : list string) : bool :=
  bool_decide ("--json" ∈ args).

(** [args.find(a => !a.startsWith('--'))]; [None] is [undefined]. *)
Definition domainOf (args : list string) : option string :=
  List.find (fun a => negb (startsWith a "--")) args.

Definition USAGE : string := "Usage: node subdomain-enum.js <domain> [--json]".

(** ** Console output *)

Definition NL : string := String LF EmptyString.

(** [c.repeat(n)] for a one-unit string *)
Fixpoint repeat_unit (c : ascii) (n : nat) : string :=
  match n with
  | 0 => EmptyString
  | S n' => String c (repeat_unit c n')
  end.

(** ['='.repeat(50)] *)
Definition RULE : string := repeat_unit "=" 50.

(** [xs.join(sep)] on an array of strings *)
Fixpoint join (xs : list string) (sep : string) : string :=
  match xs with
  | [] => EmptyString
  | x :: rest =>
      match rest with
      | [] => x
      | _ => x +:+ sep +:+ join rest sep
      end
  end.

(** [`${n}`] for an array length *)
Definition num (n : nat) : string := pretty n.

(** [if (!jsonOutput) console.log(line)] *)
Definition say (jsonOutput : bool) (out : list string) (line : string) : list string :=
  if jsonOutput then out else out ++ [line].

(** [`    [+] ${r.subdomain} -> ${r.addresses.join(', ')}`] *)
Definition progressLine (subdomain : string) (addresses : list string) : string :=
  "    [+] " +:+ subdomain +:+ " -> " +:+ join addresses ", ".

(** ** The resolution loop with what it writes

    The state of the loop: [result.alive], the lines written so far, and,
    as a ghost, the batches handed to [Promise.all]. *)

Record loop_state : Type := {
  ls_alive : list Alive.t;
  ls_stdout : list string;
  ls_dispatched : list (list string)
}.

Definition pushAliveLogged (jsonOutput : bool) (st : loop_state)
    (r : option Check.t) : outcome loop_state :=
  match r with
  | None => Raise TypeError
  | Some r =>
      if Check.alive r
      then Done {| ls_alive :=
                     ls_alive st
                       ++ [Alive.make (Check.subdomain r) (Check.addresses r)];
                   ls_stdout :=
                     say jsonOutput (ls_stdout st)
                         (progressLine (Check.subdomain r) (Check.addresses r));
                   ls_dispatched := ls_dispatched st |}
      else Done st
  end.

Fixpoint resolveLoopLogged (jsonOutput : bool) (w : world) (batchSize : nat)
    (allSubdomains : list string) (fuel i : nat) (st : loop_state)
  : outcome loop_state :=
  if decide (i < length allSubdomains) then
    match fuel with
    | 0 => Pending
    | S fuel' =>
        let batch := slice allSubdomains i (i + batchSize) in
        results ← Promise_all (settle_order w i (length batch))
                              (checkSubdomain (resolve4 w) <$> batch);
        st' ← for_of results (pushAliveLogged jsonOutput)
                {| ls_alive := ls_alive st;
                   ls_stdout := ls_stdout st;
                   ls_dispatched := ls_dispatched st ++ [batch] |};
        resolveLoopLogged jsonOutput w batchSize allSubdomains fuel'
                          (i + batchSize) st'
    end
  else Done st.

(** ** [enumerateSubdomains] with what it writes *)

Record logged_run : Type := {
  lr_report : Report.t;
  lr_stdout : list string;
  lr_dispatched : list (list string)
}.

Definition enumerateLogged (jsonOutput : bool) (words : list string)
    (batchSize : nat) (w : world) (targetDomain : string) : outcome logged_run :=
  let out := say jsonOutput [] (NL +:+ "Subdomain Enumeration: " +:+ targetDomain) in
  let out := say jsonOutput out RULE in
  let out := say jsonOutput out (NL +:+ "[*] Querying passive sources...") in
  crtSubdomains ← fetchCrtSh (fetch w) targetDomain;
  let out := say jsonOutput out
               ("    crt.sh: " +:+ num (length crtSubdomains) +:+ " entries") in
  let out := say jsonOutput out (NL +:+ "[*] Bruteforcing common subdomains...") in
  let bruteSubdomains := bruteforce words targetDomain in
  let sources := [("crt.sh", length crtSubdomains);
                  ("bruteforce", length bruteSubdomains)] in
  let allSubdomains := combineAndDedupe targetDomain crtSubdomains bruteSubdomains in
  let out := say jsonOutput out
               (NL +:+ "[*] Checking " +:+ num (length allSubdomains)
                   +:+ " subdomains for DNS resolution...") in
  st ← resolveLoopLogged jsonOutput w batchSize allSubdomains
         (length allSubdomains) 0
         {| ls_alive := []; ls_stdout := out; ls_dispatched := [] |};
  Done {| lr_report :=
            Report.make targetDomain (now w) sources allSubdomains (ls_alive st)
              (Summary.make (length allSubdomains) (length (ls_alive st)));
          lr_stdout := ls_stdout st;
          lr_dispatched := ls_dispatched st |}.

(** ** [printSummary]: the lines it writes *)

Definition printAlive (sub : Alive.t) : list string :=
  ("  " +:+ Alive.subdomain sub)
    :: ((fun ip => "    -> " +:+ ip) <$> Alive.addresses sub).

Definition printSummary (result : Report.t) : list string :=
  [ NL +:+ RULE;
    NL +:+ "Summary for " +:+ Report.domain result +:+ ":";
    "  Total discovered: " +:+ num (Summary.total_found (Report.summary result));
    "  Alive (resolving): " +:+ num (Summary.alive_count (Report.summary result));
    NL +:+ "Sources:" ]
  ++ ((fun sc => "  - " +:+ sc.1 +:+ ": " +:+ num sc.2) <$> Report.sources result)
  ++ (if decide (0 < length (Report.alive result))
      then (NL +:+ "Alive Subdomains:") :: (Report.alive result ≫= printAlive)
      else []).

(** ** The program *)

Inductive written : Type :=
  | Text (line : string)                  (* one [console.log] of a string *)
  | JsonDump (result : Report.t).         (* [JSON.stringify(result, null, 2)] *)

Record process_result : Type := {
  stdout : list written;
  stderr : list string;
  exit_code : nat
}.

Definition main (args : list string) (w : world) : outcome process_result :=
  let jsonOutput := jsonOutputOf args in
  match domainOf args with
  | None => Done {| stdout := []; stderr := [USAGE]; exit_code := 1 |}
  | Some domain =>
      if decide (domain = EmptyString)      (* [!domain] of the empty string *)
      then Done {| stdout := []; stderr := [USAGE]; exit_code := 1 |}
      else
        run ← enumerateLogged jsonOutput COMMON_SUBDOMAINS 20 w domain;
        Done {| stdout :=
                  (Text <$> lr_stdout run)
                    ++ (if jsonOutput then [JsonDump (lr_report run)]
                        else Text <$> printSummary (lr_report run));
                stderr := [];
                exit_code := 0 |}
  end.

(** ** Vocabulary of the further statements *)

(** The [name_value] strings of the records of a response. *)
Definition name_values (entries : list json) : list string :=
  omap (fun entry =>
          match get_name_value entry with
          | Done (Some (JString s)) => Some s
          | _ => None
          end) entries.

(** All the raw names of a response: every line of every [name_value]. *)
Definition raw_names (entries : list json) : list string :=
  name_values entries ≫= (fun s => split s LF).

(** Slots of the array of [Promise.all] that are still empty. *)
Definition pending_slots {A} (values : list (option A)) : nat :=
  length (filter (fun o => o = None) values).

(** What holds of a state of [Promise.all] over [promises] however the
    promises settle: a filled slot holds the value of its own promise, the
    counter counts the empty slots, and a rejection is some promise's. *)
Definition all_invariant {A} (promises : list (outcome A)) (st : all_state A) : Prop :=
  match st with
  | Waiting values remaining =>
      length values = length promises /\
      remaining = pending_slots values /\ 0 < remaining /\
      (forall i v, values !! i = Some (Some v) -> promises !! i = Some (Done v))
  | Resolved values =>
      length values = length promises /\
      (forall i o, values !! i = Some o ->
         exists v, o = Some v /\ promises !! i = Some (Done v))
  | Rejected e => exists i, promises !! i = Some (Raise e)
  end.

(** The progress line of an alive entry. *)
Definition progress (entry : Alive.t) : string :=
  progressLine (Alive.subdomain entry) (Alive.addresses entry).

(** The lines written before the resolution starts. *)
Definition preamble (targetDomain : string) (crtCount total : nat) : list string :=
  [ NL +:+ "Subdomain Enumeration: " +:+ targetDomain;
    RULE;
    NL +:+ "[*] Querying passive sources...";
    "    crt.sh: " +:+ num crtCount +:+ " entries";
    NL +:+ "[*] Bruteforcing common subdomains...";
    NL +:+ "[*] Checking " +:+ num total +:+ " subdomains for DNS resolution..." ].

(** The progress lines written for the entries [entries]. *)
Definition told (jsonOutput : bool) (entries : list Alive.t) : list string :=
  if jsonOutput then [] else progress <$> entries.

(** An argument that starts with two dashes. *)
Definition is_flag (a : string) : Prop := startsWith a "--" = true.

(** How the program ends when no domain is given. *)
Definition usage_exit : process_result :=
  {| stdout := []; stderr := [USAGE]; exit_code := 1 |}.

(** The report of the sample scenario with the built-in word list. *)
Definition sample_report : Report.t :=
  let allSubdomains :=
    combineAndDedupe "example.com"
      ["www.example.com"; "api.example.com"; "evil-example.com"]
      (bruteforce COMMON_SUBDOMAINS "example.com") in
  Report.make "example.com" (now sample_world)
    [("crt.sh", 3); ("bruteforce", 81)] allSubdomains
    [Alive.make "example.com" ["93.184.216.34"]] (Summary.make 83 1).


(** A parsed body that is an array. *)
Definition is_array (data : json) : bool :=
  match data with
  | JArray _ => true
  | _ => false
  end.

(** The stripping as the design notes word it: only a marker that stands
    at the start of the name is removed. *)
Definition stripLeadingMarker (n : string) : string :=
  if startsWith n "*." then skip 2 n else n.

(** * Properties *)

(** ** Strings *)

Section StringFacts.

Lemma app_cons c s t : String c s +:+ t = String c (s +:+ t).
Proof. reflexivity. Qed.

Lemma length_app_s s t :
  String.length (s +:+ t) = String.length s + String.length t.
Proof. induction s as [|c s IH]; [done|]. rewrite app_cons. simpl. by rewrite IH. Qed.

Lemma skip_app p d : skip (String.length p) (p +:+ d) = d.
Proof. induction p as [|c p IH]; [done|]. by rewrite app_cons. Qed.

Lemma skip_decompose n s :
  n <= String.length s ->
  exists p, s = p +:+ skip n s /\ String.length p = n.
Proof.
  revert s. induction n as [|n IH]; intros s Hn.
  - by exists "".
  - destruct s as [|c s]; simpl in Hn; [lia|].
    destruct (IH s) as (p & Hp & Hlen); [lia|].
    exists (String c p). rewrite app_cons. simpl. split; [by f_equal|lia].
Qed.

(** [endsWith] is suffix-hood, with no condition on what precedes. *)
Lemma endsWith_spec s d :
  endsWith s d = true <-> exists p, s = p +:+ d.
Proof.
  unfold endsWith. split.
  - case_decide as Hle; [|done]. intros Heq%bool_decide_eq_true.
    destruct (skip_decompose (String.length s - String.length d) s)
      as (p & Hp & _); [lia|].
    exists p. by rewrite Heq in Hp.
  - intros [p ->]. rewrite length_app_s.
    rewrite decide_True by lia. apply bool_decide_eq_true.
    replace (String.length p + String.length d - String.length d)
      with (String.length p) by lia.
    apply skip_app.
Qed.

Lemma toLowerCase_app s t :
  toLowerCase (s +:+ t) = toLowerCase s +:+ toLowerCase t.
Proof. induction s as [|c s IH]; [done|]. rewrite app_cons. simpl. by rewrite IH. Qed.

End StringFacts.

(** ** Wildcards *)

Section Wildcards.

Lemma prefix_empty s : String.prefix "" s = true.
Proof. by destruct s. Qed.

Lemma startsWith_cons c s d p :
  startsWith (String c s) (String d p) = bool_decide (d = c) && startsWith s p.
Proof.
  unfold startsWith. cbn [String.prefix].
  destruct (ascii_dec d c) as [->|Hne].
  - by rewrite bool_decide_eq_true_2.
  - by rewrite bool_decide_eq_false_2.
Qed.

Lemma startsWith_empty s : startsWith s "" = true.
Proof. apply prefix_empty. Qed.

Lemma includes_star_cons c s :
  includes (String c s) "*" = bool_decide (c = STAR) || includes s "*".
Proof.
  cbn [includes]. rewrite startsWith_cons, startsWith_empty, andb_true_r.
  f_equal. apply bool_decide_ext. split; [intros <-|intros ->]; reflexivity.
Qed.

Lemma includes_star_stars s : includes s "*" = true <-> 0 < stars s.
Proof.
  induction s as [|c s IH]; [simpl; split; [done|lia]|].
  rewrite includes_star_cons. cbn [stars].
  rewrite orb_true_iff, bool_decide_eq_true, IH.
  case_decide; [split; [lia|by left]|].
  split; [intros [?|?]; [done|lia]|right; lia].
Qed.

Lemma lowerChar_star c : lowerChar c = STAR <-> c = STAR.
Proof.
  destruct c as [[] [] [] [] [] [] [] []]; vm_compute; split; congruence.
Qed.

Lemma isWhiteSpace_star c : isWhiteSpace c = true -> c <> STAR.
Proof. by intros H ->. Qed.

Lemma stars_toLowerCase s : stars (toLowerCase s) = stars s.
Proof.
  induction s as [|c s IH]; [done|]. simpl. rewrite IH. f_equal.
  destruct (decide (c = STAR)) as [->|Hne]; [done|].
  rewrite decide_False; [done|]. by rewrite lowerChar_star.
Qed.

Lemma stars_trimStart s : stars (trimStart s) = stars s.
Proof.
  induction s as [|c s IH]; [done|]. simpl.
  destruct (isWhiteSpace c) eqn:Hws; [|done].
  rewrite IH. apply isWhiteSpace_star in Hws. by rewrite decide_False.
Qed.

Lemma stars_trimEnd s : stars (trimEnd s) = stars s.
Proof.
  induction s as [|c s IH]; [done|]. simpl.
  destruct (trimEnd s) as [|c' t] eqn:Ht.
  - rewrite <- IH. destruct (isWhiteSpace c) eqn:Hws; simpl; [|lia].
    apply isWhiteSpace_star in Hws. by rewrite decide_False.
  - by rewrite <- IH.
Qed.

Lemma stars_trim s : stars (trim s) = stars s.
Proof. unfold trim. by rewrite stars_trimEnd, stars_trimStart. Qed.

(** Removing one ["*."] removes exactly one wildcard unit, if any. *)
Lemma stars_replace s : stars s <= S (stars (replace s "*." "")).
Proof.
  induction s as [|c s IH]; [simpl; lia|].
  cbn [replace]. destruct (startsWith (String c s) "*.") eqn:Hp.
  - destruct s as [|c' s]; [by rewrite startsWith_cons, andb_false_r in Hp|].
    rewrite !startsWith_cons in Hp.
    apply andb_true_iff in Hp as [Hc%bool_decide_eq_true Hp].
    apply andb_true_iff in Hp as [Hc'%bool_decide_eq_true _].
    subst c c'. reflexivity.
  - cbn [stars]. lia.
Qed.

Lemma stars_normalizeName n : stars n <= S (stars (normalizeName n)).
Proof.
  unfold normalizeName. rewrite stars_toLowerCase, stars_trim.
  apply stars_replace.
Qed.

(** A leading marker is the first occurrence, so it is the one removed. *)
Lemma replace_leading_marker s : replace ("*." +:+ s) "*." "" = s.
Proof. by destruct s. Qed.

End Wildcards.

(** ** The insertion-ordered set *)

Section SetFacts.

Lemma elem_of_set_add s x y : y ∈ set_add s x <-> y ∈ s \/ y = x.
Proof.
  unfold set_add. case_decide as Hin.
  - split; [by left|]. intros [?| ->]; done.
  - rewrite elem_of_app, list_elem_of_singleton. done.
Qed.

Lemma NoDup_set_add s x : NoDup s -> NoDup (set_add s x).
Proof.
  intros Hs. unfold set_add. case_decide as Hin; [done|].
  apply NoDup_app. split_and!; [done| |apply NoDup_singleton].
  intros y Hy ->%list_elem_of_singleton. done.
Qed.

Lemma elem_of_foldl_set_add acc xs y :
  y ∈ foldl set_add acc xs <-> y ∈ acc \/ y ∈ xs.
Proof.
  revert acc. induction xs as [|x xs IH]; intros acc; simpl.
  - rewrite elem_of_nil. tauto.
  - rewrite IH, elem_of_set_add, elem_of_cons. tauto.
Qed.

Lemma NoDup_foldl_set_add acc xs : NoDup acc -> NoDup (foldl set_add acc xs).
Proof.
  revert acc. induction xs as [|x xs IH]; intros acc Hacc; simpl; [done|].
  by apply IH, NoDup_set_add.
Qed.

Lemma elem_of_new_Set xs y : y ∈ new_Set xs <-> y ∈ xs.
Proof.
  unfold new_Set. rewrite elem_of_foldl_set_add, elem_of_nil. tauto.
Qed.

Lemma NoDup_new_Set xs : NoDup (new_Set xs).
Proof. apply NoDup_foldl_set_add, NoDup_nil_2. Qed.

End SetFacts.

(** ** The certificate-transparency source *)

Section CrtSh.

Variable domain : string.

Lemma elem_of_addNames acc names y :
  y ∈ addNames domain acc names <->
  y ∈ acc \/ (y ∈ names /\ keepName domain y = true).
Proof.
  unfold addNames. revert acc.
  induction names as [|n names IH]; intros acc; simpl.
  - rewrite elem_of_nil. tauto.
  - rewrite IH, elem_of_cons. destruct (keepName domain n) eqn:Hk.
    + rewrite elem_of_set_add. split; [|naive_solver].
      intros [[?| ->]|?]; naive_solver.
    + split; [naive_solver|]. intros [?|[[->|?] ?]]; [tauto|congruence|tauto].
Qed.

Lemma NoDup_addNames acc names :
  NoDup acc -> NoDup (addNames domain acc names).
Proof.
  unfold addNames. revert acc.
  induction names as [|n names IH]; intros acc Hacc; simpl; [done|].
  apply IH. destruct (keepName domain n); [by apply NoDup_set_add|done].
Qed.

(** One record either extends the set or throws; it never hangs. *)
Lemma visitEntry_cases acc entry :
  (name_value_is_string entry = false /\
     visitEntry domain acc entry = Raise TypeError) \/
  (exists s, get_name_value entry = Done (Some (JString s)) /\
     name_value_is_string entry = true /\
     visitEntry domain acc entry =
       Done (addNames domain acc (normalizeName <$> split s LF))).
Proof.
  unfold visitEntry.
  destruct entry as [| | | |items|props]; simpl; try by left.
  destruct (own_property "name_value" props) as [[| | |s| |]|] eqn:Hp;
    simpl; try by left.
  right. by exists s.
Qed.

Lemma kept_only_nil : kept_only domain [].
Proof. split; [apply NoDup_nil_2|]. by intros n ?%elem_of_nil. Qed.

Lemma for_of_visitEntry entries acc :
  kept_only domain acc ->
  (exists e, for_of entries (visitEntry domain) acc = Raise e) \/
  (exists names, for_of entries (visitEntry domain) acc = Done names /\
     kept_only domain names).
Proof.
  revert acc. induction entries as [|entry entries IH]; intros acc Hacc.
  - right. by exists acc.
  - cbn [for_of].
    destruct (visitEntry_cases acc entry) as [[_ ->]|(s & _ & _ & ->)].
    + left. by exists TypeError.
    + cbn. apply IH. destruct Hacc as [Hnd Hk]. split.
      * by apply NoDup_addNames.
      * intros n [?|[_ ?]]%elem_of_addNames; auto.
Qed.

Variable fetch : string -> outcome response.

(** The source never throws: it settles to a list, unless the request
    itself never settles. *)
Lemma fetchCrtSh_cases :
  (fetchCrtSh fetch domain = Pending) \/
  (exists names, fetchCrtSh fetch domain = Done names /\ kept_only domain names).
Proof.
  unfold fetchCrtSh, fetchCrtSh_body.
  destruct (fetch (crtShUrl domain)) as [[isok body]|e|]; cbn.
  - destruct isok; cbn; [|right; exists []; split; [done|apply kept_only_nil]].
    destruct body as [data|e|]; cbn;
      [|right; exists []; split; [done|apply kept_only_nil]|by left].
    destruct (iterate data) as [entries|e|] eqn:Hit; cbn;
      [|right; exists []; split; [done|apply kept_only_nil]|].
    + destruct (for_of_visitEntry entries [] kept_only_nil)
        as [[e ->]|(names & -> & Hk)]; cbn.
      * right. exists []. split; [done|apply kept_only_nil].
      * right. by exists names.
    + by destruct data.
  - right. exists []. split; [done|apply kept_only_nil].
  - by left.
Qed.

End CrtSh.

(** ** [Promise.all] is insensitive to the settlement order *)

Section PromiseAll.

Context {A : Type}.
Variable vs : list A.

Lemma length_slots settled : length (slots vs settled) = length vs.
Proof. unfold slots. by rewrite length_imap. Qed.

Lemma lookup_slots settled i :
  slots vs settled !! i =
    (fun v => if decide (i ∈ settled) then Some v else None) <$> vs !! i.
Proof. unfold slots. by rewrite list_lookup_imap. Qed.

Lemma slots_nil : slots vs [] = replicate (length vs) None.
Proof.
  apply list_eq. intros i. rewrite lookup_slots.
  destruct (vs !! i) as [v|] eqn:Hv; simpl.
  - symmetry. apply lookup_replicate_2. by eapply lookup_lt_Some.
  - symmetry. apply lookup_ge_None. rewrite length_replicate.
    by apply lookup_ge_None.
Qed.

Lemma slots_snoc settled i v :
  vs !! i = Some v ->
  <[i := Some v]> (slots vs settled) = slots vs (settled ++ [i]).
Proof.
  intros Hv. apply list_eq. intros j. rewrite lookup_slots.
  destruct (decide (i = j)) as [<-|Hne].
  - rewrite list_lookup_insert_eq
      by (rewrite length_slots; by eapply lookup_lt_Some).
    rewrite Hv. simpl. rewrite decide_True; [done|].
    apply elem_of_app. right. by apply list_elem_of_singleton.
  - rewrite list_lookup_insert_ne by done. rewrite lookup_slots.
    destruct (vs !! j) as [v'|]; simpl; [|done].
    destruct (decide (j ∈ settled)) as [Hin|Hnin].
    + rewrite decide_True; [done|]. apply elem_of_app. by left.
    + rewrite decide_False; [done|].
      intros [?|?%list_elem_of_singleton]%elem_of_app; congruence.
Qed.

Lemma slots_full settled :
  (forall i, i < length vs -> i ∈ settled) -> slots vs settled = Some <$> vs.
Proof.
  intros Hall. apply list_eq. intros i.
  rewrite lookup_slots, list_lookup_fmap.
  destruct (vs !! i) as [v|] eqn:Hv; simpl; [|done].
  rewrite decide_True; [done|]. apply Hall. by eapply lookup_lt_Some.
Qed.

(** After the promises in [settled] have fulfilled, those in [rest]
    fulfil one by one; the last of them resolves the aggregate. *)
Lemma foldl_all_settle rest settled :
  NoDup (settled ++ rest) ->
  (forall i, i ∈ settled ++ rest -> i < length vs) ->
  length (settled ++ rest) = length vs ->
  foldl (all_settle (Done <$> vs))
        (Waiting (slots vs settled) (length vs - length settled)) rest
  = match rest with
    | [] => Waiting (slots vs settled) (length vs - length settled)
    | _ => Resolved (slots vs (settled ++ rest))
    end.
Proof.
  revert settled. induction rest as [|i rest IH]; intros settled Hnd Hlt Hlen.
  - done.
  - cbn [foldl]. unfold all_settle at 2.
    assert (i < length vs) as Hi.
    { apply Hlt, elem_of_app. right. apply elem_of_cons. by left. }
    destruct (lookup_lt_is_Some_2 vs i Hi) as [v Hv].
    rewrite list_lookup_fmap, Hv. cbn [fmap option_fmap option_map].
    rewrite lookup_slots, Hv. cbn [fmap option_fmap option_map].
    assert (i ∉ settled) as Hfresh.
    { apply NoDup_app in Hnd as (_ & Hdisj & _). intros Hin.
      eapply Hdisj; [done|]. apply elem_of_cons. by left. }
    rewrite decide_False by done.
    rewrite (slots_snoc settled i v Hv).
    rewrite length_app in Hlen. cbn [length] in Hlen.
    destruct rest as [|i' rest].
    + rewrite decide_True by (cbn [length] in Hlen; lia). done.
    + rewrite decide_False by (cbn [length] in Hlen; lia).
      replace (length vs - length settled - 1)
        with (length vs - length (settled ++ [i]))
        by (rewrite length_app; cbn [length]; lia).
      rewrite IH.
      * by rewrite <- app_assoc.
      * by rewrite <- app_assoc.
      * by rewrite <- app_assoc.
      * rewrite <- app_assoc, length_app. cbn [length app]. cbn [length] in Hlen. lia.
Qed.

Lemma all_start_fulfilled :
  vs <> [] ->
  all_start (Done <$> vs)
  = Waiting (slots vs []) (length vs - length (@nil nat)).
Proof.
  intros Hne. unfold all_start.
  destruct (Done <$> vs) as [|p ps] eqn:Hps.
  { by apply fmap_nil_inv in Hps. }
  rewrite <- Hps, length_fmap, slots_nil. cbn [length]. by rewrite Nat.sub_0_r.
Qed.

(** Whatever order the promises fulfil in, the aggregate resolves to
    their values in the order of the promises. *)
Lemma Promise_all_fulfilled order :
  order ≡ₚ seq 0 (length vs) ->
  Promise_all order (Done <$> vs) = Done (Some <$> vs).
Proof.
  intros Hperm. unfold Promise_all.
  destruct (decide (vs = [])) as [Hnil|Hne].
  { rewrite Hnil in *. apply Permutation_nil_r in Hperm as ->. done. }
  rewrite (all_start_fulfilled Hne), foldl_all_settle.
  - destruct order as [|i order].
    + apply Permutation_nil_l, (f_equal length) in Hperm.
      rewrite length_seq in Hperm. by destruct vs.
    + cbn [app]. f_equal. apply slots_full.
      intros j Hj. rewrite Hperm. apply elem_of_seq. lia.
  - cbn [app]. rewrite Hperm. apply NoDup_seq.
  - cbn [app]. intros i. rewrite Hperm, elem_of_seq. lia.
  - cbn [app]. by rewrite Hperm, length_seq.
Qed.

End PromiseAll.

(** ** The resolution loop *)

Section Resolution.

Variable w : world.

Lemma checkSubdomain_success name addresses :
  resolve4 w name = Done addresses ->
  checkSubdomain (resolve4 w) name = Done (Check.make name addresses true).
Proof. intros Hr. unfold checkSubdomain. by rewrite Hr. Qed.

Lemma checkSubdomain_failure name e :
  resolve4 w name = Raise e ->
  checkSubdomain (resolve4 w) name = Done (Check.make name [] false).
Proof. intros Hr. unfold checkSubdomain. by rewrite Hr. Qed.

Lemma checkSubdomain_classify name :
  resolve4 w name <> Pending ->
  checkSubdomain (resolve4 w) name = Done (classify w name).
Proof.
  intros Hr. unfold checkSubdomain, classify.
  by destruct (resolve4 w name).
Qed.

Lemma classify_subdomain name : Check.subdomain (classify w name) = name.
Proof. unfold classify. by destruct (resolve4 w name). Qed.

Lemma alive_of_cons name names :
  alive_of w (name :: names) =
    if resolves w name
    then Alive.make name (Check.addresses (classify w name)) :: alive_of w names
    else alive_of w names.
Proof.
  unfold alive_of. rewrite filter_cons.
  destruct (resolves w name); by case_decide.
Qed.

Lemma alive_of_app names1 names2 :
  alive_of w (names1 ++ names2) = alive_of w names1 ++ alive_of w names2.
Proof. unfold alive_of. by rewrite filter_app, fmap_app. Qed.

Lemma alive_of_subdomains names :
  Alive.subdomain <$> alive_of w names = filter (fun s => resolves w s = true) names.
Proof.
  unfold alive_of. rewrite <- list_fmap_compose. apply list_fmap_id.
Qed.

Lemma for_of_pushAlive batch alive :
  for_of (Some <$> (classify w <$> batch)) pushAlive alive
  = Done (alive ++ alive_of w batch).
Proof.
  revert alive. induction batch as [|name batch IH]; intros alive.
  - cbn. by rewrite app_nil_r.
  - rewrite alive_of_cons. cbn [fmap list_fmap for_of pushAlive].
    fold (resolves w name). rewrite classify_subdomain.
    destruct (resolves w name); cbn; rewrite IH; [|done].
    by rewrite <- app_assoc.
Qed.

Hypothesis Hsettle : settles_once w.
Hypothesis Hanswer : resolver_answers w.

(** One batch: every candidate of the batch gets its classification,
    in the order of the batch. *)
Lemma batch_results i batch :
  Promise_all (settle_order w i (length batch))
              (checkSubdomain (resolve4 w) <$> batch)
  = Done (Some <$> (classify w <$> batch)).
Proof.
  replace (checkSubdomain (resolve4 w) <$> batch)
    with (Done <$> (classify w <$> batch)).
  - apply Promise_all_fulfilled. rewrite length_fmap. apply Hsettle.
  - rewrite <- list_fmap_compose. apply list_fmap_ext.
    intros _ name _. symmetry. apply checkSubdomain_classify, Hanswer.
Qed.

Variable batchSize : nat.
Hypothesis HbatchSize : 1 <= batchSize.

Lemma resolveLoop_spec allSubdomains fuel i alive :
  length allSubdomains - i <= fuel ->
  resolveLoop w batchSize allSubdomains fuel i alive
  = Done (alive ++ alive_of w (drop i allSubdomains)).
Proof.
  revert i alive. induction fuel as [|fuel IH]; intros i alive Hfuel.
  - cbn. rewrite decide_False by lia.
    rewrite drop_ge by lia. by rewrite app_nil_r.
  - cbn [resolveLoop]. case_decide as Hi.
    + unfold slice. replace (i + batchSize - i) with batchSize by lia.
      rewrite batch_results. cbn. rewrite for_of_pushAlive. cbn.
      rewrite IH by lia. f_equal. rewrite <- app_assoc. f_equal.
      rewrite <- alive_of_app. f_equal.
      rewrite <- (take_drop batchSize (drop i allSubdomains)) at 2.
      by rewrite drop_drop.
    + rewrite drop_ge by lia. by rewrite app_nil_r.
Qed.

Lemma resolveLoop_all allSubdomains :
  resolveLoop w batchSize allSubdomains (length allSubdomains) 0 []
  = Done (alive_of w allSubdomains).
Proof. rewrite resolveLoop_spec by lia. done. Qed.

(** The whole run, once the certificate-transparency source has settled. *)
Lemma enumerateWith_spec words targetDomain crtSubdomains :
  fetchCrtSh (fetch w) targetDomain = Done crtSubdomains ->
  let allSubdomains :=
    combineAndDedupe targetDomain crtSubdomains (bruteforce words targetDomain) in
  enumerateWith words batchSize w targetDomain
  = Done (Report.make targetDomain (now w)
            [("crt.sh", length crtSubdomains); ("bruteforce", length words)]
            allSubdomains (alive_of w allSubdomains)
            (Summary.make (length allSubdomains)
                          (length (alive_of w allSubdomains)))).
Proof.
  intros Hcrt allSubdomains. unfold enumerateWith. rewrite Hcrt. cbn.
  fold allSubdomains. rewrite resolveLoop_all. cbn.
  unfold bruteforce. by rewrite length_fmap.
Qed.

End Resolution.

(** ** Candidate aggregation *)

Section Aggregation.

Variables (targetDomain : string) (crtSubdomains bruteSubdomains : list string).

Lemma sort_Permutation xs : sort xs ≡ₚ xs.
Proof. apply merge_sort_Permutation. Qed.

Lemma Sorted_sort xs : Sorted String.le (sort xs).
Proof. apply (Sorted_merge_sort String.le). Qed.

Lemma elem_of_combine x :
  x ∈ combineAndDedupe targetDomain crtSubdomains bruteSubdomains <->
  x = targetDomain \/ x ∈ crtSubdomains \/ x ∈ bruteSubdomains.
Proof.
  unfold combineAndDedupe. rewrite sort_Permutation, elem_of_new_Set.
  rewrite elem_of_cons, elem_of_app. tauto.
Qed.

Lemma NoDup_combine : NoDup (combineAndDedupe targetDomain crtSubdomains bruteSubdomains).
Proof. unfold combineAndDedupe. rewrite sort_Permutation. apply NoDup_new_Set. Qed.

Lemma Sorted_combine :
  Sorted String.le (combineAndDedupe targetDomain crtSubdomains bruteSubdomains).
Proof. apply Sorted_sort. Qed.

(** The output is determined by these three properties: any duplicate-free
    ascending list with the same members is the same list. *)
Lemma combine_unique candidates :
  NoDup candidates -> Sorted String.le candidates ->
  (forall x, x ∈ candidates <->
     x = targetDomain \/ x ∈ crtSubdomains \/ x ∈ bruteSubdomains) ->
  candidates = combineAndDedupe targetDomain crtSubdomains bruteSubdomains.
Proof.
  intros Hnd Hsorted Hmem.
  apply (Sorted_unique String.le); [done|apply Sorted_combine|].
  apply NoDup_Permutation; [done|apply NoDup_combine|].
  intros x. by rewrite Hmem, elem_of_combine.
Qed.

End Aggregation.

Lemma settles_once_seq w : settles_once (with_order w (fun _ n => seq 0 n)).
Proof. intros i n. done. Qed.

Lemma settles_once_sample : settles_once sample_world.
Proof. intros i n. apply reverse_Permutation. Qed.

Lemma settles_once_offline : settles_once offline_world.
Proof. intros i n. done. Qed.

Lemma example_resolver_answers name : example_resolver name <> Pending.
Proof. unfold example_resolver. by case_decide. Qed.

Lemma resolver_answers_sample : resolver_answers sample_world.
Proof. intros name. apply example_resolver_answers. Qed.

Lemma resolver_answers_offline : resolver_answers offline_world.
Proof. intros name. apply example_resolver_answers. Qed.

Lemma Sorted_filter_le (P : string -> Prop) `{!forall x, Decision (P x)} xs :
  Sorted String.le xs -> Sorted String.le (filter P xs).
Proof.
  intros Hs%(Sorted_StronglySorted String.le).
  apply StronglySorted_Sorted.
  induction Hs as [|x xs Hs IH Hall]; [constructor|].
  rewrite filter_cons. case_decide; [|done].
  constructor; [done|].
  apply Forall_forall. intros y [_ Hy]%list_elem_of_filter.
  by eapply Forall_forall in Hall.
Qed.

Lemma enumerateWith_inv words batchSize w targetDomain r :
  enumerateWith words batchSize w targetDomain = Done r ->
  exists crtSubdomains alive,
    fetchCrtSh (fetch w) targetDomain = Done crtSubdomains /\
    let allSubdomains :=
      combineAndDedupe targetDomain crtSubdomains (bruteforce words targetDomain) in
    resolveLoop w batchSize allSubdomains (length allSubdomains) 0 [] = Done alive /\
    r = Report.make targetDomain (now w)
          [("crt.sh", length crtSubdomains);
           ("bruteforce", length (bruteforce words targetDomain))]
          allSubdomains alive
          (Summary.make (length allSubdomains) (length alive)).
Proof.
  unfold enumerateWith. intros Hrun.
  destruct (fetchCrtSh (fetch w) targetDomain) as [crt|e|]; cbn in Hrun; [|done..].
  destruct (resolveLoop w batchSize _ _ 0 []) as [alive|e|] eqn:Hloop;
    cbn in Hrun; [|done..].
  exists crt, alive. split; [done|]. split; [done|].
  injection Hrun as <-. reflexivity.
Qed.

Lemma keepName_spec domain n :
  keepName domain n = true <-> (exists p, n = p +:+ domain) /\ stars n = 0.
Proof.
  unfold keepName. rewrite andb_true_iff, negb_true_iff, endsWith_spec.
  rewrite <- not_true_iff_false, includes_star_stars. split; intros [? ?]; split; try done; lia.
Qed.

Lemma for_of_visitEntry_bad domain entries acc :
  (exists entry, entry ∈ entries /\ name_value_is_string entry = false) ->
  for_of entries (visitEntry domain) acc = Raise TypeError.
Proof.
  revert acc. induction entries as [|entry entries IH]; intros acc (bad & Hin & Hbad).
  - by apply elem_of_nil in Hin.
  - cbn [for_of].
    destruct (visitEntry_cases domain acc entry) as [[_ ->]|(s & _ & Hgood & ->)];
      [done|].
    cbn. apply IH. apply elem_of_cons in Hin as [->|Hin]; [congruence|].
    by exists bad.
Qed.

Lemma fetchCrtSh_failed fetch domain :
  source_failed (fetch (crtShUrl domain)) -> fetchCrtSh fetch domain = Done [].
Proof.
  unfold fetchCrtSh, fetchCrtSh_body.
  intros [[e ->]|(r & -> & [Hok|[[e Hbody]|(data & e & Hbody & Hit)]])]; cbn.
  - done.
  - by rewrite Hok.
  - destruct (ok r); cbn; [|done]. by rewrite Hbody.
  - destruct (ok r); cbn; [|done]. rewrite Hbody. cbn. by rewrite Hit.
Qed.

Lemma Promise_all_nil {A} order : Promise_all order (@nil (outcome A)) = Done [].
Proof.
  unfold Promise_all. cbn [all_start].
  by induction order as [|i order IH].
Qed.

(** ** Letter case of the root domain *)

Lemma COMMON_SUBDOMAINS_lower :
  Forall (fun s => toLowerCase s = s) COMMON_SUBDOMAINS.
Proof. apply (bool_decide_unpack _). by vm_compute. Qed.

(** * The claims *)

(** C1.  The claim: a name returned by the certificate-transparency source
    is kept only if it equals the domain or ends with ['.'] followed by
    the domain, so [evil-example.com] and [notexample.com] never belong to
    [example.com].  The code tests [n.endsWith(domain)]: a name is kept
    exactly when the domain is a suffix of it, whatever stands before the
    suffix, and it carries no wildcard.  Run on these names for
    [example.com] it keeps all of them, next to [sub.example.com]. *)
Theorem C1_suffix_test_has_no_boundary :
  (forall domain n,
     keepName domain n = true <-> (exists p, n = p +:+ domain) /\ stars n = 0) /\
  fetchCrtSh (serving ["evil-example.com"; "notexample.com"; "sub.example.com"])
             "example.com"
  = Done ["evil-example.com"; "notexample.com"; "sub.example.com"].
Proof. split; [apply keepName_spec|reflexivity]. Qed.

(** C2.  The candidate aggregation outputs the union of the domain, the
    certificate-transparency names and the bruteforce names, each string
    once, ascending by code units; the domain is always a member, also when
    both sources are empty; and this list is the [subdomains] of every
    report. *)
Theorem C2_candidate_set (targetDomain : string) (crt brute : list string) :
  (forall x, x ∈ combineAndDedupe targetDomain crt brute <->
     x = targetDomain \/ x ∈ crt \/ x ∈ brute) /\
  NoDup (combineAndDedupe targetDomain crt brute) /\
  Sorted String.le (combineAndDedupe targetDomain crt brute) /\
  targetDomain ∈ combineAndDedupe targetDomain crt brute /\
  combineAndDedupe targetDomain [] [] = [targetDomain] /\
  (forall words batchSize w r,
     enumerateWith words batchSize w targetDomain = Done r ->
     exists crtSubdomains,
       fetchCrtSh (fetch w) targetDomain = Done crtSubdomains /\
       Report.subdomains r =
         combineAndDedupe targetDomain crtSubdomains (bruteforce words targetDomain)).
Proof.
  split_and!.
  - apply elem_of_combine.
  - apply NoDup_combine.
  - apply Sorted_combine.
  - apply elem_of_combine. by left.
  - reflexivity.
  - intros words batchSize w r (crtSubdomains & alive & Hcrt & _ & ->)%enumerateWith_inv.
    by exists crtSubdomains.
Qed.

(** C3.  The alive list follows the order of the candidate sequence: its
    names are the candidates that resolve, filtered in order (so it is
    ascending when the candidates are), and the order in which the
    resolutions of a batch complete does not show in it. *)
Theorem C3_alive_in_candidate_order (w : world)
    (order : nat -> nat -> list nat) (batchSize : nat) (candidates : list string) :
  1 <= batchSize ->
  settles_once w -> settles_once (with_order w order) -> resolver_answers w ->
  resolveLoop (with_order w order) batchSize candidates (length candidates) 0 []
    = resolveLoop w batchSize candidates (length candidates) 0 [] /\
  exists alive,
    resolveLoop w batchSize candidates (length candidates) 0 [] = Done alive /\
    Alive.subdomain <$> alive = filter (fun s => resolves w s = true) candidates /\
    (Sorted String.le candidates -> Sorted String.le (Alive.subdomain <$> alive)).
Proof.
  intros HbatchSize Hsettle Hsettle' Hanswer.
  rewrite (resolveLoop_all w Hsettle Hanswer batchSize HbatchSize).
  rewrite (resolveLoop_all (with_order w order) Hsettle' Hanswer batchSize HbatchSize).
  split; [done|]. exists (alive_of w candidates).
  rewrite alive_of_subdomains. split_and!; [done..|].
  apply Sorted_filter_le.
Qed.

Lemma C3_alive_in_candidate_order_witness :
  let candidates := ["a.example.com"; "example.com"; "www.example.com"] in
  resolveLoop (with_order sample_world (fun _ n => seq 0 n)) 2 candidates 3 0 []
    = resolveLoop sample_world 2 candidates 3 0 [] /\
  exists alive,
    resolveLoop sample_world 2 candidates 3 0 [] = Done alive /\
    Alive.subdomain <$> alive
      = filter (fun s => resolves sample_world s = true) candidates /\
    (Sorted String.le candidates -> Sorted String.le (Alive.subdomain <$> alive)).
Proof.
  apply (C3_alive_in_candidate_order sample_world (fun _ n => seq 0 n) 2
           ["a.example.com"; "example.com"; "www.example.com"]).
  - lia.
  - apply settles_once_sample.
  - apply (settles_once_seq sample_world).
  - apply resolver_answers_sample.
Defined.

(** C4.  For a fixed candidate sequence and fixed resolver outcomes the
    alive list is the same, elements and order, for every batch size of at
    least one; so is the whole report. *)
Theorem C4_batch_size_invariance (w : world) (candidates : list string)
    (batchSize1 batchSize2 : nat) :
  1 <= batchSize1 -> 1 <= batchSize2 ->
  settles_once w -> resolver_answers w ->
  resolveLoop w batchSize1 candidates (length candidates) 0 []
    = resolveLoop w batchSize2 candidates (length candidates) 0 [] /\
  resolveLoop w batchSize1 candidates (length candidates) 0 []
    = Done (alive_of w candidates) /\
  (forall words targetDomain,
     enumerateWith words batchSize1 w targetDomain
     = enumerateWith words batchSize2 w targetDomain).
Proof.
  intros H1 H2 Hsettle Hanswer.
  rewrite !(resolveLoop_all w Hsettle Hanswer) by done.
  split_and!; [done..|]. intros words targetDomain.
  destruct (fetchCrtSh_cases targetDomain (fetch w)) as [Hp|(crt & Hcrt & _)].
  - unfold enumerateWith. by rewrite Hp.
  - rewrite (enumerateWith_spec w Hsettle Hanswer batchSize1 H1 words targetDomain crt Hcrt).
    by rewrite (enumerateWith_spec w Hsettle Hanswer batchSize2 H2 words targetDomain crt Hcrt).
Qed.

Lemma C4_batch_size_invariance_witness :
  let candidates :=
    combineAndDedupe "example.com" ["www.example.com"; "api.example.com"]
            (bruteforce COMMON_SUBDOMAINS "example.com") in
  resolveLoop sample_world 1 candidates (length candidates) 0 []
    = resolveLoop sample_world 5 candidates (length candidates) 0 [] /\
  resolveLoop sample_world 1 candidates (length candidates) 0 []
    = Done (alive_of sample_world candidates) /\
  (forall words targetDomain,
     enumerateWith words 1 sample_world targetDomain
     = enumerateWith words 5 sample_world targetDomain).
Proof.
  apply (C4_batch_size_invariance sample_world
           (combineAndDedupe "example.com" ["www.example.com"; "api.example.com"]
                    (bruteforce COMMON_SUBDOMAINS "example.com")) 1 5).
  - lia.
  - lia.
  - apply settles_once_sample.
  - apply resolver_answers_sample.
Defined.

(** The batch sizes named in the design notes, evaluated. *)
Example batch_sizes_1_5_20 :
  let candidates :=
    combineAndDedupe "example.com" ["www.example.com"; "api.example.com"]
            (bruteforce COMMON_SUBDOMAINS "example.com") in
  let expected := Done [Alive.make "example.com" ["93.184.216.34"]] in
  resolveLoop sample_world 1 candidates (length candidates) 0 [] = expected /\
  resolveLoop sample_world 5 candidates (length candidates) 0 [] = expected /\
  resolveLoop sample_world 20 candidates (length candidates) 0 [] = expected.
Proof. vm_compute. done. Qed.

(** A batch size of zero never advances: the loop does not return. *)
Remark batch_size_zero_hangs w candidates fuel alive :
  candidates <> [] ->
  resolveLoop w 0 candidates fuel 0 alive = Pending.
Proof.
  intros Hne. revert alive. induction fuel as [|fuel IH]; intros alive.
  - cbn. rewrite decide_True; [done|]. destruct candidates; [done|cbn; lia].
  - cbn [resolveLoop]. rewrite decide_True by (destruct candidates; [done|cbn; lia]).
    unfold slice. replace (0 + 0 - 0) with 0 by lia.
    rewrite take_0. cbn [fmap list_fmap length]. rewrite Promise_all_nil.
    cbn. apply IH.
Qed.

(** What does hold of wildcards: a marker at the start is removed and the
    rest trimmed and lower-cased; a name whose normal form contains ['*']
    is not added, so no returned name contains ['*']; and a name with two
    or more wildcards is discarded. *)
Remark wildcard_names_discarded :
  (forall s, normalizeName ("*." +:+ s) = toLowerCase (trim s)) /\
  (forall domain acc raw,
     includes (normalizeName raw) "*" = true ->
     addNames domain acc [normalizeName raw] = acc) /\
  (forall fetch domain names n,
     fetchCrtSh fetch domain = Done names -> n ∈ names ->
     includes n "*" = false) /\
  (forall domain acc raw,
     2 <= stars raw -> addNames domain acc [normalizeName raw] = acc) /\
  fetchCrtSh (serving ["*.API.Example.com"]) "example.com"
    = Done ["api.example.com"] /\
  fetchCrtSh (serving ["*.*.example.com"; "*.a.*.example.com"]) "example.com"
    = Done [].
Proof.
  assert (forall domain acc n, includes n "*" = true ->
            addNames domain acc [n] = acc) as Hdiscard.
  { intros domain acc n Hstar. unfold addNames, keepName. cbn [foldl].
    by rewrite Hstar, andb_false_r. }
  split_and!.
  - intros s. unfold normalizeName. by rewrite replace_leading_marker.
  - intros domain acc raw. apply Hdiscard.
  - intros fetch domain names n Hrun Hin.
    destruct (fetchCrtSh_cases domain fetch) as [Hp|(names' & Hd & _ & Hkept)];
      [congruence|].
    assert (names' = names) as -> by congruence.
    apply Hkept in Hin. unfold keepName in Hin.
    apply andb_true_iff in Hin as [_ Hin]. by apply negb_true_iff.
  - intros domain acc raw Hstars. apply Hdiscard, includes_star_stars.
    pose proof (stars_normalizeName raw). lia.
  - reflexivity.
  - reflexivity.
Qed.

(** [replace] takes the first ["*."] wherever it stands: after a prefix
    without wildcard the marker is cut out of the middle of the name. *)
Lemma replace_interior_marker p s :
  stars p = 0 -> replace (p +:+ "*." +:+ s) "*." "" = p +:+ s.
Proof.
  induction p as [|c p IH]; intros Hp.
  - apply replace_leading_marker.
  - cbn [stars] in Hp. destruct (decide (c = STAR)) as [->|Hc]; [done|].
    rewrite !app_cons. cbn [replace].
    rewrite startsWith_cons, bool_decide_eq_false_2 by (intros <-; by apply Hc).
    cbn [andb]. f_equal. apply IH. lia.
Qed.

(** C5.  The claim: a leading ["*."] is stripped and the name lower-cased,
    and a name that still contains ['*'] after that is discarded.  The code
    calls [n.replace('*.', '')], which removes the first ["*."] wherever it
    stands.  So for [foo.*.example.com] and [a*.example.com], which keep
    their ['*'] when only a leading marker is stripped and so are to be
    discarded, the code returns [foo.example.com] and [aexample.com]; the
    same happens after any prefix without wildcard. *)
Theorem C5_interior_marker_is_removed :
  includes (toLowerCase (stripLeadingMarker "foo.*.example.com")) "*" = true /\
  includes (toLowerCase (stripLeadingMarker "a*.example.com")) "*" = true /\
  fetchCrtSh (serving ["foo.*.example.com"; "a*.example.com"]) "example.com"
    = Done ["foo.example.com"; "aexample.com"] /\
  (forall p s,
     stars p = 0 ->
     normalizeName (p +:+ "*." +:+ s) = toLowerCase (trim (p +:+ s))).
Proof.
  split_and!; [reflexivity..|].
  intros p s Hp. unfold normalizeName. by rewrite replace_interior_marker.
Qed.

(** C6.  When the certificate-transparency request fails (the request
    rejects on a network error or a timeout, the status is not a success,
    or the body does not parse) the source yields the empty list, and the
    enumeration still returns a full report: nothing is thrown to the
    caller. *)
Theorem C6_source_failure_is_soft (w : world) (targetDomain : string) :
  source_failed (fetch w (crtShUrl targetDomain)) ->
  settles_once w -> resolver_answers w ->
  fetchCrtSh (fetch w) targetDomain = Done [] /\
  exists r,
    enumerateSubdomains w targetDomain = Done r /\
    Report.domain r = targetDomain /\
    Report.sources r = [("crt.sh", 0); ("bruteforce", 81)] /\
    Report.subdomains r =
      combineAndDedupe targetDomain [] (bruteforce COMMON_SUBDOMAINS targetDomain) /\
    Report.alive r = alive_of w (Report.subdomains r) /\
    Summary.total_found (Report.summary r) = length (Report.subdomains r) /\
    Summary.alive_count (Report.summary r) = length (Report.alive r).
Proof.
  intros Hfailed Hsettle Hanswer.
  pose proof (fetchCrtSh_failed (fetch w) targetDomain Hfailed) as Hcrt.
  split; [done|]. eexists. split.
  - unfold enumerateSubdomains.
    by apply (enumerateWith_spec w Hsettle Hanswer 20 ltac:(lia)
                COMMON_SUBDOMAINS targetDomain []).
  - by cbn.
Qed.

Lemma C6_source_failure_is_soft_witness :
  fetchCrtSh (fetch offline_world) "example.com" = Done [] /\
  exists r,
    enumerateSubdomains offline_world "example.com" = Done r /\
    Report.domain r = "example.com" /\
    Report.sources r = [("crt.sh", 0); ("bruteforce", 81)] /\
    Report.subdomains r =
      combineAndDedupe "example.com" [] (bruteforce COMMON_SUBDOMAINS "example.com") /\
    Report.alive r = alive_of offline_world (Report.subdomains r) /\
    Summary.total_found (Report.summary r) = length (Report.subdomains r) /\
    Summary.alive_count (Report.summary r) = length (Report.alive r).
Proof.
  apply (C6_source_failure_is_soft offline_world "example.com").
  - left. by exists TimeoutError.
  - apply settles_once_offline.
  - apply resolver_answers_offline.
Defined.

(** C7.  A resolution that succeeds gives [{alive: true}] with the returned
    addresses; one that fails, for whatever reason, gives [{alive: false}]
    with no address; and a failure aborts nothing: every candidate of a
    batch, and of every later batch, gets its own classification. *)
Theorem C7_fault_isolation (w : world) :
  settles_once w -> resolver_answers w ->
  (forall name addresses,
     resolve4 w name = Done addresses ->
     checkSubdomain (resolve4 w) name = Done (Check.make name addresses true)) /\
  (forall name e,
     resolve4 w name = Raise e ->
     checkSubdomain (resolve4 w) name = Done (Check.make name [] false)) /\
  (forall i batch,
     Promise_all (settle_order w i (length batch))
                 (checkSubdomain (resolve4 w) <$> batch)
     = Done (Some <$> (classify w <$> batch))) /\
  (forall batchSize candidates,
     1 <= batchSize ->
     resolveLoop w batchSize candidates (length candidates) 0 []
     = Done (alive_of w candidates)).
Proof.
  intros Hsettle Hanswer. split_and!.
  - apply checkSubdomain_success.
  - apply checkSubdomain_failure.
  - by apply batch_results.
  - intros batchSize candidates HbatchSize. by apply resolveLoop_all.
Qed.

Lemma C7_fault_isolation_witness :
  Promise_all (settle_order sample_world 0 3)
              (checkSubdomain example_resolver
                 <$> ["a.example.com"; "example.com"; "b.example.com"])
  = Done [Some (Check.make "a.example.com" [] false);
          Some (Check.make "example.com" ["93.184.216.34"] true);
          Some (Check.make "b.example.com" [] false)].
Proof.
  pose proof (C7_fault_isolation sample_world settles_once_sample
                resolver_answers_sample) as (_ & _ & Hbatch & _).
  exact (Hbatch 0 ["a.example.com"; "example.com"; "b.example.com"]).
Defined.

(** C8.  The claim: enumeration with a domain and with its lower-cased form
    classify the same certificate names and have the same candidates.  The
    code lower-cases every name but compares it with the domain as typed,
    and never lower-cases the domain.  Run for ["Example.com"] it keeps no
    certificate name (three are kept for ["example.com"]) and spells the
    candidates with the capital. *)
Theorem C8_one_sided_lower_casing :
  toLowerCase "Example.com" = "example.com" /\
  fetchCrtSh (fetch sample_world) "Example.com" = Done [] /\
  fetchCrtSh (fetch sample_world) "example.com"
    = Done ["www.example.com"; "api.example.com"; "evil-example.com"] /\
  (exists r, enumerateSubdomains sample_world "Example.com" = Done r /\
     ("Example.com" ∈ Report.subdomains r) /\
     ("www.Example.com" ∈ Report.subdomains r) /\
     ("www.example.com" ∉ Report.subdomains r)) /\
  (exists r, enumerateSubdomains sample_world "example.com" = Done r /\
     ("Example.com" ∉ Report.subdomains r) /\
     ("www.Example.com" ∉ Report.subdomains r) /\
     ("www.example.com" ∈ Report.subdomains r)).
Proof.
  split_and!; [reflexivity..| |].
  - eexists. split; [vm_compute; reflexivity|].
    split_and!; apply (bool_decide_unpack _); by vm_compute.
  - eexists. split; [vm_compute; reflexivity|].
    split_and!; apply (bool_decide_unpack _); by vm_compute.
Qed.

(** C9.  Once the source has settled and the batches have completed, the
    report is assembled without any further step that could fail, with
    [total_found] the length of the candidate list and [alive_count] the
    length of the alive list; every returned report has these counts. *)
Theorem C9_summary_counts (words : list string) (batchSize : nat) (w : world)
    (targetDomain : string) (crtSubdomains : list string) (alive : list Alive.t) :
  fetchCrtSh (fetch w) targetDomain = Done crtSubdomains ->
  resolveLoop w batchSize
    (combineAndDedupe targetDomain crtSubdomains (bruteforce words targetDomain))
    (length (combineAndDedupe targetDomain crtSubdomains (bruteforce words targetDomain)))
    0 [] = Done alive ->
  exists r,
    enumerateWith words batchSize w targetDomain = Done r /\
    Report.subdomains r
      = combineAndDedupe targetDomain crtSubdomains (bruteforce words targetDomain) /\
    Report.alive r = alive /\
    Summary.total_found (Report.summary r) = length (Report.subdomains r) /\
    Summary.alive_count (Report.summary r) = length (Report.alive r) /\
    (forall r', enumerateWith words batchSize w targetDomain = Done r' ->
       Summary.total_found (Report.summary r') = length (Report.subdomains r') /\
       Summary.alive_count (Report.summary r') = length (Report.alive r')).
Proof.
  intros Hcrt Hloop. eexists. split.
  - unfold enumerateWith. rewrite Hcrt. cbn [mbind outcome_bind].
    rewrite Hloop. reflexivity.
  - split_and!; [done..|].
    intros r' (crt' & alive' & _ & _ & ->)%enumerateWith_inv. done.
Qed.

Lemma C9_summary_counts_witness :
  exists r,
    enumerateWith ["www"; "mail"] 20 sample_world "example.com" = Done r /\
    Report.subdomains r
      = combineAndDedupe "example.com"
          ["www.example.com"; "api.example.com"; "evil-example.com"]
          (bruteforce ["www"; "mail"] "example.com") /\
    Report.alive r = [Alive.make "example.com" ["93.184.216.34"]] /\
    Summary.total_found (Report.summary r) = length (Report.subdomains r) /\
    Summary.alive_count (Report.summary r) = length (Report.alive r) /\
    (forall r', enumerateWith ["www"; "mail"] 20 sample_world "example.com" = Done r' ->
       Summary.total_found (Report.summary r') = length (Report.subdomains r') /\
       Summary.alive_count (Report.summary r') = length (Report.alive r')).
Proof.
  apply (C9_summary_counts ["www"; "mail"] 20 sample_world "example.com"
           ["www.example.com"; "api.example.com"; "evil-example.com"]
           [Alive.make "example.com" ["93.184.216.34"]]).
  - reflexivity.
  - vm_compute. reflexivity.
Defined.

(** C10.  Parsing is all-or-nothing across the records of a response: when
    the body is an array and some record's [name_value] is missing or is
    not a string, the source returns the empty list, whatever the other
    records contributed. *)
Theorem C10_all_or_nothing (fetch : string -> outcome response)
    (domain : string) (entries : list json) :
  fetch (crtShUrl domain) = Done {| ok := true; body_json := Done (JArray entries) |} ->
  (exists entry, entry ∈ entries /\ name_value_is_string entry = false) ->
  fetchCrtSh fetch domain = Done [].
Proof.
  intros Hfetch Hbad. unfold fetchCrtSh, fetchCrtSh_body.
  rewrite Hfetch. cbn. by rewrite (for_of_visitEntry_bad domain entries [] Hbad).
Qed.

Lemma C10_all_or_nothing_witness :
  fetchCrtSh
    (fun _ => Done {| ok := true;
                      body_json :=
                        Done (JArray [JObject [("name_value", JString "www.example.com")];
                                      JObject [("issuer_ca_id", JNumber "16418")]]) |})
    "example.com"
  = Done [].
Proof.
  apply (C10_all_or_nothing _ "example.com"
           [JObject [("name_value", JString "www.example.com")];
            JObject [("issuer_ca_id", JNumber "16418")]]).
  - reflexivity.
  - exists (JObject [("issuer_ca_id", JNumber "16418")]). split; [|reflexivity].
    apply elem_of_cons. right. apply elem_of_cons. by left.
Defined.

(** * Further properties of the program *)

(** ** Normal forms of names *)

Section NormalForms.

Lemma lowerChar_lowerChar c : lowerChar (lowerChar c) = lowerChar c.
Proof. by destruct c as [[] [] [] [] [] [] [] []]. Qed.

Lemma toLowerCase_toLowerCase s : toLowerCase (toLowerCase s) = toLowerCase s.
Proof. induction s as [|c s IH]; [done|]. simpl. by rewrite lowerChar_lowerChar, IH. Qed.

Lemma isWhiteSpace_lowerChar c : isWhiteSpace (lowerChar c) = isWhiteSpace c.
Proof. by destruct c as [[] [] [] [] [] [] [] []]. Qed.

Lemma length_toLowerCase s : String.length (toLowerCase s) = String.length s.
Proof. induction s as [|c s IH]; [done|]. simpl. by rewrite IH. Qed.

Lemma toLowerCase_trimStart s : toLowerCase (trimStart s) = trimStart (toLowerCase s).
Proof.
  induction s as [|c s IH]; [done|]. simpl. rewrite isWhiteSpace_lowerChar.
  by destruct (isWhiteSpace c).
Qed.

Lemma toLowerCase_trimEnd s : toLowerCase (trimEnd s) = trimEnd (toLowerCase s).
Proof.
  induction s as [|c s IH]; [done|]. simpl. rewrite <- IH, isWhiteSpace_lowerChar.
  destruct (trimEnd s) as [|c' t]; simpl; [|done].
  by destruct (isWhiteSpace c).
Qed.

Lemma toLowerCase_trim s : toLowerCase (trim s) = trim (toLowerCase s).
Proof. unfold trim. by rewrite toLowerCase_trimEnd, toLowerCase_trimStart. Qed.

Lemma trimEnd_cons c s c' t :
  trimEnd s = String c' t -> trimEnd (String c s) = String c (String c' t).
Proof. intros Hs. simpl. by rewrite Hs. Qed.

Lemma trimEnd_trimEnd s : trimEnd (trimEnd s) = trimEnd s.
Proof.
  induction s as [|c s IH]; [done|].
  destruct (trimEnd s) as [|c' t] eqn:Ht.
  - simpl. rewrite Ht. destruct (isWhiteSpace c) eqn:Hc; [done|]. simpl. by rewrite Hc.
  - rewrite (trimEnd_cons c s c' t Ht). by apply trimEnd_cons.
Qed.

(** A string that starts with a unit that is not white space. *)
Lemma trimStart_head s :
  trimStart s = EmptyString \/
  exists c t, trimStart s = String c t /\ isWhiteSpace c = false.
Proof.
  induction s as [|c s IH]; [by left|]. simpl.
  destruct (isWhiteSpace c) eqn:Hc; [done|]. right. by exists c, s.
Qed.

Lemma trimStart_trimEnd_head c t :
  isWhiteSpace c = false ->
  trimStart (trimEnd (String c t)) = trimEnd (String c t).
Proof.
  intros Hc. destruct (trimEnd t) as [|c' t'] eqn:Ht.
  - simpl. rewrite Ht, Hc. simpl. by rewrite Hc.
  - rewrite (trimEnd_cons c t c' t' Ht). simpl. by rewrite Hc.
Qed.

Lemma trim_trim s : trim (trim s) = trim s.
Proof.
  unfold trim.
  destruct (trimStart_head s) as [->|(c & t & -> & Hc)]; [done|].
  by rewrite trimStart_trimEnd_head, trimEnd_trimEnd.
Qed.

Lemma toLowerCase_normalizeName raw :
  toLowerCase (normalizeName raw) = normalizeName raw.
Proof. unfold normalizeName. apply toLowerCase_toLowerCase. Qed.

Lemma trim_normalizeName raw : trim (normalizeName raw) = normalizeName raw.
Proof. unfold normalizeName. by rewrite <- toLowerCase_trim, trim_trim. Qed.

Lemma app_inv_length a a' b b' :
  String.length a = String.length a' -> a +:+ b = a' +:+ b' -> b = b'.
Proof.
  revert a'. induction a as [|c a IH]; intros [|c' a'] Hlen Heq;
    simpl in Hlen; try done.
  rewrite !app_cons in Heq. injection Heq as _ Heq. apply (IH a'); [lia|done].
Qed.

(** A lower-case name can only end with a lower-case domain. *)
Lemma lower_suffix_lower n p domain :
  toLowerCase n = n -> n = p +:+ domain -> toLowerCase domain = domain.
Proof.
  intros Hn ->. rewrite toLowerCase_app in Hn.
  by apply app_inv_length in Hn; [|apply length_toLowerCase].
Qed.

End NormalForms.

(** ** The certificate-transparency source as a pipeline *)

Section Pipeline.

Variable domain : string.

Lemma addNames_filter acc names :
  addNames domain acc names = foldl set_add acc (filter (fun n => keepName domain n = true) names).
Proof.
  unfold addNames. revert acc.
  induction names as [|n names IH]; intros acc; [done|].
  cbn [foldl]. rewrite filter_cons.
  destruct (keepName domain n) eqn:Hn.
  - rewrite decide_True by done. apply IH.
  - rewrite decide_False by congruence. apply IH.
Qed.

Lemma raw_names_cons_string entry entries s :
  get_name_value entry = Done (Some (JString s)) ->
  raw_names (entry :: entries) = split s LF ++ raw_names entries.
Proof. intros Hs. unfold raw_names, name_values. cbn. by rewrite Hs. Qed.

Lemma for_of_visitEntry_wellformed entries acc :
  Forall (fun entry => name_value_is_string entry = true) entries ->
  for_of entries (visitEntry domain) acc
  = Done (foldl set_add acc (filter (fun n => keepName domain n = true) (normalizeName <$> raw_names entries))).
Proof.
  intros Hwf. revert acc.
  induction Hwf as [|entry entries Hentry _ IH]; intros acc; [done|].
  cbn [for_of].
  destruct (visitEntry_cases domain acc entry) as [[Hbad _]|(s & Hs & _ & ->)];
    [congruence|].
  rewrite (raw_names_cons_string _ _ s Hs). cbn [mbind outcome_bind].
  by rewrite IH, addNames_filter, fmap_app, filter_app, foldl_app.
Qed.

(** Whatever the records are, a name that ends up in the set is the normal
    form of some raw name and passed the filter. *)
Lemma for_of_visitEntry_elem entries acc names n :
  for_of entries (visitEntry domain) acc = Done names ->
  n ∈ names ->
  n ∈ acc \/ exists raw, n = normalizeName raw /\ keepName domain n = true.
Proof.
  revert acc. induction entries as [|entry entries IH]; intros acc Hrun Hn.
  - left. cbn in Hrun. congruence.
  - cbn [for_of] in Hrun.
    destruct (visitEntry_cases domain acc entry) as [[_ Hv]|(s & _ & _ & Hv)];
      rewrite Hv in Hrun; [done|].
    cbn in Hrun. destruct (IH _ Hrun Hn) as [Hin|?]; [|by right].
    apply elem_of_addNames in Hin as [?|[Hraw ?]]; [by left|right].
    apply list_elem_of_fmap in Hraw as (raw & -> & _). by exists raw.
Qed.

Lemma fetchCrtSh_elem fetch names n :
  fetchCrtSh fetch domain = Done names -> n ∈ names ->
  exists raw, n = normalizeName raw /\ keepName domain n = true.
Proof.
  unfold fetchCrtSh, fetchCrtSh_body. intros Hrun Hn.
  destruct (fetch (crtShUrl domain)) as [[isok body]|e|]; cbn in Hrun;
    [|injection Hrun as <-; by apply elem_of_nil in Hn|done].
  destruct isok; cbn in Hrun;
    [|injection Hrun as <-; by apply elem_of_nil in Hn].
  destruct body as [data|e|]; cbn in Hrun;
    [|injection Hrun as <-; by apply elem_of_nil in Hn|done].
  destruct (iterate data) as [entries|e|]; cbn in Hrun;
    [|injection Hrun as <-; by apply elem_of_nil in Hn|done].
  destruct (for_of entries (visitEntry domain) []) as [names'|e|] eqn:Hloop;
    cbn in Hrun; [|injection Hrun as <-; by apply elem_of_nil in Hn|done].
  injection Hrun as ->.
  destruct (for_of_visitEntry_elem entries [] names n Hloop Hn) as [Hin|?]; [|done].
  by apply elem_of_nil in Hin.
Qed.

Lemma fetchCrtSh_wellformed fetch entries :
  fetch (crtShUrl domain)
    = Done {| ok := true; body_json := Done (JArray entries) |} ->
  Forall (fun entry => name_value_is_string entry = true) entries ->
  fetchCrtSh fetch domain
  = Done (new_Set (filter (fun n => keepName domain n = true) (normalizeName <$> raw_names entries))).
Proof.
  intros Hfetch Hwf. unfold fetchCrtSh, fetchCrtSh_body. rewrite Hfetch. cbn.
  by rewrite (for_of_visitEntry_wellformed entries [] Hwf).
Qed.

End Pipeline.

Lemma split_nonempty s sep : split s sep <> [].
Proof.
  induction s as [|c s IH]; [done|]. simpl.
  case_decide; [done|]. by destruct (split s sep).
Qed.

(** Splitting distributes over joining two texts with the separator. *)
Lemma split_app a b sep :
  split (a +:+ String sep b) sep = split a sep ++ split b sep.
Proof.
  induction a as [|c a IH].
  - change (EmptyString +:+ String sep b) with (String sep b).
    cbn [split app]. by rewrite decide_True.
  - rewrite app_cons. cbn [split]. rewrite IH. case_decide; [done|].
    pose proof (split_nonempty a sep). by destruct (split a sep).
Qed.

Lemma name_values_serving name_values0 :
  name_values ((fun n => JObject [("name_value", JString n)]) <$> name_values0)
  = name_values0.
Proof.
  unfold name_values. induction name_values0 as [|n ns IH]; [done|].
  cbn. cbn in IH. by rewrite IH.
Qed.

Lemma fetchCrtSh_serving domain name_values0 :
  fetchCrtSh (serving name_values0) domain
  = Done (new_Set (filter (fun n => keepName domain n = true)
                     (normalizeName <$> (name_values0 ≫= fun s => split s LF)))).
Proof.
  rewrite (fetchCrtSh_wellformed domain (serving name_values0)
             ((fun n => JObject [("name_value", JString n)]) <$> name_values0)).
  - unfold raw_names. by rewrite name_values_serving.
  - done.
  - apply Forall_fmap, Forall_forall. by intros n _.
Qed.

(** ** [Promise.all] under any settlement order *)

Section PromiseAllAnyOrder.

Context {A : Type}.
Implicit Types values : list (option A).

Lemma pending_slots_replicate n : pending_slots (replicate n (@None A)) = n.
Proof.
  unfold pending_slots. induction n as [|n IH]; [done|].
  cbn [replicate]. rewrite filter_cons, decide_True by done. cbn. by rewrite IH.
Qed.

Lemma pending_slots_insert values i v :
  values !! i = Some None ->
  pending_slots values = S (pending_slots (<[i := Some v]> values)).
Proof.
  unfold pending_slots. revert i.
  induction values as [|o values IH]; intros [|i] Hi; try done.
  - cbn in Hi. injection Hi as ->. cbn [insert list_insert].
    rewrite !filter_cons, decide_True, decide_False by done. done.
  - cbn in Hi. cbn [insert list_insert]. rewrite !filter_cons.
    case_decide; cbn [length]; by rewrite (IH i Hi).
Qed.

Lemma pending_slots_zero values i o :
  pending_slots values = 0 -> values !! i = Some o -> exists v, o = Some v.
Proof.
  unfold pending_slots. revert i.
  induction values as [|o' values IH]; intros i Hz Hi; [done|].
  rewrite filter_cons in Hz. case_decide as Ho'; [done|].
  destruct i as [|i]; cbn in Hi.
  - injection Hi as <-. destruct o' as [v|]; [by exists v|done].
  - by apply (IH i).
Qed.

Variable promises : list (outcome A).

Lemma all_invariant_start : all_invariant promises (all_start promises).
Proof.
  unfold all_start. destruct promises as [|p ps] eqn:Hps.
  - split; [done|]. by intros i o ?.
  - rewrite <- Hps. split_and!.
    + by rewrite length_replicate.
    + by rewrite pending_slots_replicate.
    + rewrite Hps. cbn. lia.
    + intros i v Hi. apply lookup_replicate in Hi as [? _]. done.
Qed.

Lemma all_invariant_settle st i :
  all_invariant promises st -> all_invariant promises (all_settle promises st i).
Proof.
  destruct st as [values remaining| |]; [|done..].
  intros (Hlen & Hrem & Hpos & Hvals). unfold all_settle.
  destruct (promises !! i) as [[v|e|]|] eqn:Hp; try by repeat split.
  - destruct (values !! i) as [[v'|]|] eqn:Hv; try by repeat split.
    pose proof (pending_slots_insert values i v Hv) as Hcount.
    assert (forall j v', <[i := Some v]> values !! j = Some (Some v') ->
              promises !! j = Some (Done v')) as Hvals'.
    { intros j v' Hj. destruct (decide (i = j)) as [<-|Hne].
      - rewrite list_lookup_insert_eq in Hj by (by eapply lookup_lt_Some).
        by injection Hj as <-.
      - rewrite list_lookup_insert_ne in Hj by done. by apply Hvals. }
    case_decide as Hone.
    + split; [by rewrite length_insert|]. intros j o Hj.
      destruct (pending_slots_zero (<[i := Some v]> values) j o) as [v' ->];
        [lia|done|].
      exists v'. split; [done|]. by apply Hvals'.
    + split_and!; [by rewrite length_insert|lia|lia|done].
  - destruct (values !! i) as [[v'|]|] eqn:Hv; try by repeat split.
    by exists i.
Qed.

Lemma all_invariant_foldl order st :
  all_invariant promises st ->
  all_invariant promises (foldl (all_settle promises) st order).
Proof.
  revert st. induction order as [|i order IH]; intros st Hst; [done|].
  cbn. by apply IH, all_invariant_settle.
Qed.

(** If the aggregate resolves, every slot holds the value of its promise;
    if it rejects, with the reason of one of the promises. *)
Lemma Promise_all_sound order :
  match Promise_all order promises with
  | Done values =>
      length values = length promises /\
      (forall i o, values !! i = Some o ->
         exists v, o = Some v /\ promises !! i = Some (Done v))
  | Raise e => exists i, promises !! i = Some (Raise e)
  | Pending => True
  end.
Proof.
  unfold Promise_all.
  pose proof (all_invariant_foldl order _ all_invariant_start) as Hinv.
  by destruct (foldl _ _ order).
Qed.

End PromiseAllAnyOrder.

(** ** The run under any settlement order *)

Section AnyOrder.

Variable w : world.

Lemma checkSubdomain_cases name :
  checkSubdomain (resolve4 w) name = Pending \/
  checkSubdomain (resolve4 w) name = Done (classify w name).
Proof.
  unfold checkSubdomain, classify. destruct (resolve4 w name); cbn; auto.
Qed.

Lemma batch_sound order batch :
  match Promise_all order (checkSubdomain (resolve4 w) <$> batch) with
  | Done values => values = Some <$> (classify w <$> batch)
  | Raise _ => False
  | Pending => True
  end.
Proof.
  pose proof (Promise_all_sound (checkSubdomain (resolve4 w) <$> batch) order) as Hs.
  destruct (Promise_all order _) as [values|e|]; [| |done].
  - destruct Hs as [Hlen Hvals]. rewrite length_fmap in Hlen.
    apply list_eq. intros i. rewrite !list_lookup_fmap.
    destruct (values !! i) as [o|] eqn:Hi.
    + destruct (Hvals i o Hi) as (v & -> & Hp).
      rewrite list_lookup_fmap in Hp.
      destruct (batch !! i) as [name|]; [|done]. cbn in Hp. cbn.
      destruct (checkSubdomain_cases name) as [Hc|Hc]; congruence.
    + apply lookup_ge_None in Hi. rewrite Hlen in Hi.
      apply lookup_ge_None in Hi. by rewrite Hi.
  - destruct Hs as [i Hp]. rewrite list_lookup_fmap in Hp.
    destruct (batch !! i) as [name|]; [|done]. cbn in Hp.
    destruct (checkSubdomain_cases name) as [Hc|Hc]; congruence.
Qed.

Lemma drop_batch {A} (xs : list A) i n :
  drop i xs = take n (drop i xs) ++ drop (i + n) xs.
Proof. by rewrite <- drop_drop, take_drop. Qed.

(** The loop never throws, and what it returns does not depend on the
    settlement order, the batch size or the fuel. *)
Lemma resolveLoop_sound batchSize allSubdomains fuel i alive :
  match resolveLoop w batchSize allSubdomains fuel i alive with
  | Done alive' => alive' = alive ++ alive_of w (drop i allSubdomains)
  | Raise _ => False
  | Pending => True
  end.
Proof.
  revert i alive. induction fuel as [|fuel IH]; intros i alive.
  - cbn. case_decide; [done|]. rewrite drop_ge by lia. by rewrite app_nil_r.
  - cbn [resolveLoop]. case_decide as Hi.
    + unfold slice. replace (i + batchSize - i) with batchSize by lia.
      pose proof (batch_sound
                    (settle_order w i (length (take batchSize (drop i allSubdomains))))
                    (take batchSize (drop i allSubdomains))) as Hb.
      destruct (Promise_all _ _) as [values|e|]; [|done..].
      subst values. cbn [mbind outcome_bind]. rewrite for_of_pushAlive.
      cbn [mbind outcome_bind].
      specialize (IH (i + batchSize)
                     (alive ++ alive_of w (take batchSize (drop i allSubdomains)))).
      destruct (resolveLoop _ _ _ _ _ _) as [alive'|e|]; [|done..].
      rewrite IH, <- app_assoc, <- alive_of_app. by rewrite <- drop_batch.
    + rewrite drop_ge by lia. by rewrite app_nil_r.
Qed.

(** The run never throws; when it returns, the report is the one fixed by
    the names of the source and the answers of the resolver. *)
Lemma enumerateWith_cases words batchSize targetDomain :
  enumerateWith words batchSize w targetDomain = Pending \/
  exists crtSubdomains,
    fetchCrtSh (fetch w) targetDomain = Done crtSubdomains /\
    kept_only targetDomain crtSubdomains /\
    let allSubdomains :=
      combineAndDedupe targetDomain crtSubdomains (bruteforce words targetDomain) in
    enumerateWith words batchSize w targetDomain
    = Done (Report.make targetDomain (now w)
              [("crt.sh", length crtSubdomains); ("bruteforce", length words)]
              allSubdomains (alive_of w allSubdomains)
              (Summary.make (length allSubdomains)
                            (length (alive_of w allSubdomains)))).
Proof.
  unfold enumerateWith.
  destruct (fetchCrtSh_cases targetDomain (fetch w)) as [->|(crt & -> & Hkept)];
    [by left|].
  cbn [mbind outcome_bind].
  pose proof (resolveLoop_sound batchSize
                (combineAndDedupe targetDomain crt (bruteforce words targetDomain))
                (length (combineAndDedupe targetDomain crt
                           (bruteforce words targetDomain))) 0 []) as Hloop.
  destruct (resolveLoop _ _ _ _ _ _) as [alive|e|]; [|done|by left].
  right. exists crt. split; [done|]. split; [done|].
  cbn. cbn in Hloop. subst alive.
  unfold bruteforce at 1. by rewrite length_fmap.
Qed.

End AnyOrder.

(** ** What the loop writes and dispatches *)

Section Logged.

Variables (jsonOutput : bool) (w : world).

Lemma told_app entries1 entries2 :
  told jsonOutput (entries1 ++ entries2) = told jsonOutput entries1 ++ told jsonOutput entries2.
Proof. unfold told. destruct jsonOutput; [done|]. by rewrite fmap_app. Qed.

Lemma for_of_pushAliveLogged batch st :
  for_of (Some <$> (classify w <$> batch)) (pushAliveLogged jsonOutput) st
  = Done {| ls_alive := ls_alive st ++ alive_of w batch;
            ls_stdout := ls_stdout st ++ told jsonOutput (alive_of w batch);
            ls_dispatched := ls_dispatched st |}.
Proof.
  revert st. induction batch as [|name batch IH]; intros st.
  - cbn. unfold told. destruct st, jsonOutput; cbn; by rewrite !app_nil_r.
  - rewrite alive_of_cons. cbn [fmap list_fmap for_of pushAliveLogged].
    fold (resolves w name). rewrite classify_subdomain.
    destruct (resolves w name); cbn [mbind outcome_bind]; rewrite IH; [|done].
    cbn [ls_alive ls_stdout ls_dispatched]. f_equal. f_equal.
    + by rewrite <- app_assoc.
    + unfold say, told, progress. destruct jsonOutput; [done|].
      cbn [fmap list_fmap Alive.subdomain Alive.addresses].
      by rewrite <- app_assoc.
Qed.

Variable batchSize : nat.

Lemma ceil_step len i :
  1 <= batchSize -> i < len ->
  (len - i + batchSize - 1) / batchSize
  = S ((len - (i + batchSize) + batchSize - 1) / batchSize).
Proof.
  intros HB Hi.
  replace (len - i + batchSize - 1) with (len - i - 1 + 1 * batchSize) by lia.
  rewrite Nat.div_add by lia. rewrite Nat.add_1_r. f_equal.
  destruct (decide (batchSize <= len - i)) as [Hge|Hlt].
  - f_equal. lia.
  - rewrite !Nat.div_small by lia. done.
Qed.

(** The logged loop computes what the loop computes, writes one progress
    line per alive entry, and dispatches the candidates from [i] on, in
    order, cut into batches. *)
Lemma resolveLoopLogged_cases allSubdomains fuel i st :
  (resolveLoopLogged jsonOutput w batchSize allSubdomains fuel i st = Pending /\
   resolveLoop w batchSize allSubdomains fuel i (ls_alive st) = Pending) \/
  exists dispatched,
    resolveLoopLogged jsonOutput w batchSize allSubdomains fuel i st
    = Done {| ls_alive := ls_alive st ++ alive_of w (drop i allSubdomains);
              ls_stdout :=
                ls_stdout st ++ told jsonOutput (alive_of w (drop i allSubdomains));
              ls_dispatched := ls_dispatched st ++ dispatched |} /\
    resolveLoop w batchSize allSubdomains fuel i (ls_alive st)
    = Done (ls_alive st ++ alive_of w (drop i allSubdomains)) /\
    concat dispatched = drop i allSubdomains /\
    Forall (fun batch => length batch <= batchSize) dispatched /\
    (1 <= batchSize ->
     Forall (fun batch => 1 <= length batch) dispatched /\
     length dispatched
     = (length allSubdomains - i + batchSize - 1) / batchSize).
Proof.
  revert i st. induction fuel as [|fuel IH]; intros i st.
  - cbn. case_decide as Hi; [by left|]. right. exists [].
    rewrite drop_ge by lia. unfold told. destruct st, jsonOutput; cbn;
      rewrite !app_nil_r; split_and!; try done;
      intros HB; (split; [done|]); cbn; symmetry; apply Nat.div_small; lia.
  - cbn [resolveLoopLogged resolveLoop]. case_decide as Hi.
    + unfold slice. replace (i + batchSize - i) with batchSize by lia.
      set (batch := take batchSize (drop i allSubdomains)).
      pose proof (batch_sound w (settle_order w i (length batch)) batch) as Hb.
      destruct (Promise_all _ _) as [values|e|]; [|done|by left].
      subst values. cbn [mbind outcome_bind].
      rewrite for_of_pushAliveLogged, for_of_pushAlive.
      cbn [mbind outcome_bind ls_alive ls_stdout ls_dispatched].
      destruct (IH (i + batchSize)
                  {| ls_alive := ls_alive st ++ alive_of w batch;
                     ls_stdout := ls_stdout st ++ told jsonOutput (alive_of w batch);
                     ls_dispatched := ls_dispatched st ++ [batch] |})
        as [[Hl Hr]|(dispatched & Hl & Hr & Hcat & Hle & Hpos)];
        cbn [ls_alive ls_stdout ls_dispatched] in *; [by left|].
      right. exists (batch :: dispatched). rewrite Hl, Hr.
      rewrite (drop_batch allSubdomains i batchSize). fold batch.
      rewrite alive_of_app, told_app, <- !app_assoc. split_and!; try done.
      * cbn. by rewrite Hcat.
      * constructor; [|done]. unfold batch. rewrite length_take. lia.
      * intros HB. destruct (Hpos HB) as [Hpos1 Hcount]. split.
        -- constructor; [|done]. unfold batch.
           rewrite length_take, length_drop. lia.
        -- cbn [length]. rewrite Hcount. symmetry. by apply ceil_step.
    + right. exists []. rewrite drop_ge by lia. unfold told.
      destruct st, jsonOutput; cbn; rewrite !app_nil_r; split_and!; try done;
        intros HB; (split; [done|]); cbn; symmetry; apply Nat.div_small; lia.
Qed.

End Logged.

Lemma say_preamble jsonOutput targetDomain crtCount total :
  say jsonOutput
    (say jsonOutput
       (say jsonOutput
          (say jsonOutput
             (say jsonOutput
                (say jsonOutput [] (NL +:+ "Subdomain Enumeration: " +:+ targetDomain))
                RULE)
             (NL +:+ "[*] Querying passive sources..."))
          ("    crt.sh: " +:+ num crtCount +:+ " entries"))
       (NL +:+ "[*] Bruteforcing common subdomains..."))
    (NL +:+ "[*] Checking " +:+ num total +:+ " subdomains for DNS resolution...")
  = if jsonOutput then [] else preamble targetDomain crtCount total.
Proof. by destruct jsonOutput. Qed.

(** The logged run returns the report of the run, whatever the mode. *)
Lemma enumerateLogged_cases jsonOutput words batchSize w targetDomain :
  (enumerateLogged jsonOutput words batchSize w targetDomain = Pending /\
   enumerateWith words batchSize w targetDomain = Pending) \/
  exists crtSubdomains dispatched report,
    fetchCrtSh (fetch w) targetDomain = Done crtSubdomains /\
    enumerateWith words batchSize w targetDomain = Done report /\
    Report.subdomains report
      = combineAndDedupe targetDomain crtSubdomains (bruteforce words targetDomain) /\
    Report.alive report = alive_of w (Report.subdomains report) /\
    enumerateLogged jsonOutput words batchSize w targetDomain
    = Done {| lr_report := report;
              lr_stdout :=
                (if jsonOutput then []
                 else preamble targetDomain (length crtSubdomains)
                        (length (Report.subdomains report)))
                ++ told jsonOutput (Report.alive report);
              lr_dispatched := dispatched |} /\
    concat dispatched = Report.subdomains report /\
    Forall (fun batch => length batch <= batchSize) dispatched /\
    (1 <= batchSize ->
     Forall (fun batch => 1 <= length batch) dispatched /\
     length dispatched
     = (length (Report.subdomains report) + batchSize - 1) / batchSize).
Proof.
  unfold enumerateLogged, enumerateWith.
  destruct (fetchCrtSh_cases targetDomain (fetch w)) as [->|(crt & -> & _)];
    [by left|].
  cbn [mbind outcome_bind]. rewrite say_preamble.
  set (allSubdomains :=
         combineAndDedupe targetDomain crt (bruteforce words targetDomain)).
  destruct (resolveLoopLogged_cases jsonOutput w batchSize allSubdomains
              (length allSubdomains) 0
              {| ls_alive := [];
                 ls_stdout := if jsonOutput then []
                              else preamble targetDomain (length crt)
                                     (length allSubdomains);
                 ls_dispatched := [] |})
    as [[-> Hr]|(dispatched & -> & Hr & Hcat & Hle & Hpos)];
    cbn [ls_alive ls_stdout ls_dispatched] in Hr; rewrite Hr; [by left|].
  right. cbn [mbind outcome_bind ls_alive ls_stdout ls_dispatched app].
  rewrite drop_0 in *. rewrite Nat.sub_0_r in Hpos.
  eexists crt, dispatched, _. split; [done|]. split; [reflexivity|].
  cbn [Report.subdomains Report.alive]. by split_and!.
Qed.

(** ** Counting the candidates *)

Lemma app_inv_tail_s a b t : a +:+ t = b +:+ t -> a = b.
Proof.
  revert b. induction a as [|c a IH]; intros [|c' b] Heq.
  - done.
  - apply (f_equal String.length) in Heq.
    rewrite !length_app_s in Heq. cbn in Heq. lia.
  - apply (f_equal String.length) in Heq.
    rewrite !length_app_s in Heq. cbn in Heq. lia.
  - rewrite !app_cons in Heq. injection Heq as -> Heq. f_equal. by apply IH.
Qed.

Lemma NoDup_bruteforce words targetDomain :
  NoDup words -> NoDup (bruteforce words targetDomain).
Proof.
  intros Hnd. unfold bruteforce. apply NoDup_fmap_2; [|done].
  intros s1 s2 Heq. by apply app_inv_tail_s in Heq.
Qed.

Lemma root_not_bruteforce words targetDomain :
  targetDomain ∉ bruteforce words targetDomain.
Proof.
  unfold bruteforce. intros (s & Heq & _)%list_elem_of_fmap.
  apply (f_equal String.length) in Heq.
  rewrite !length_app_s in Heq. cbn in Heq. lia.
Qed.

Lemma length_bruteforce words targetDomain :
  length (bruteforce words targetDomain) = length words.
Proof. unfold bruteforce. apply length_fmap. Qed.

Lemma NoDup_COMMON_SUBDOMAINS : NoDup COMMON_SUBDOMAINS.
Proof. apply (bool_decide_unpack _). by vm_compute. Qed.

(** A name found by several sources is one candidate: the candidates are
    the root, the bruteforce names, and the certificate names that are
    neither. *)
Lemma length_combineAndDedupe targetDomain crt brute :
  NoDup crt -> NoDup (targetDomain :: brute) ->
  length (combineAndDedupe targetDomain crt brute)
  = S (length brute) + length (filter (fun n => n ∉ targetDomain :: brute) crt).
Proof.
  intros Hcrt Hbrute.
  change (S (length brute)) with (length (targetDomain :: brute)).
  rewrite <- length_app. apply Permutation_length.
  unfold combineAndDedupe. rewrite sort_Permutation.
  apply NoDup_Permutation.
  - apply NoDup_new_Set.
  - apply NoDup_app. split_and!; [done| |by apply NoDup_filter].
    intros x Hx [Hnot _]%list_elem_of_filter. done.
  - intros x. rewrite elem_of_new_Set, elem_of_app, list_elem_of_filter.
    rewrite !elem_of_cons, elem_of_app.
    destruct (decide (x ∈ targetDomain :: brute)) as [Hin|Hnin].
    + apply elem_of_cons in Hin. tauto.
    + rewrite elem_of_cons in Hnin. tauto.
Qed.

(** ** The command line *)

Section CommandLine.

Lemma domainOf_None args : domainOf args = None <-> Forall is_flag args.
Proof.
  unfold domainOf, is_flag. induction args as [|a args IH]; cbn.
  - split; [constructor|done].
  - destruct (startsWith a "--") eqn:Ha; cbn.
    + rewrite IH. split; [by constructor|by inversion 1].
    + split; [done|]. inversion 1; congruence.
Qed.

Lemma domainOf_Some args d :
  domainOf args = Some d <->
  exists pre post, args = pre ++ d :: post /\ Forall is_flag pre /\ ~ is_flag d.
Proof.
  unfold domainOf, is_flag. induction args as [|a args IH]; cbn.
  - split; [done|]. intros (pre & post & Heq & _). by destruct pre.
  - destruct (startsWith a "--") eqn:Ha; cbn.
    + rewrite IH. split.
      * intros (pre & post & -> & Hpre & Hd). exists (a :: pre), post.
        split; [done|]. split; [by constructor|done].
      * intros (pre & post & Heq & Hpre & Hd).
        destruct pre as [|a' pre]; cbn in Heq; injection Heq as -> ->.
        -- congruence.
        -- exists pre, post. inversion Hpre; subst. done.
    + split.
      * intros [= <-]. exists [], args. split; [done|]. split; [constructor|congruence].
      * intros (pre & post & Heq & Hpre & Hd).
        destruct pre as [|a' pre]; cbn in Heq; injection Heq as -> ->; [done|].
        inversion Hpre; subst. congruence.
Qed.

End CommandLine.

#[global] Instance Done_inj {A} : Inj (=) (=) (@Done A).
Proof. by intros a b [= ->]. Qed.

(** ** The program as a whole *)

Lemma main_cases args w :
  main args w = Pending \/
  main args w = Done usage_exit \/
  exists domain crtSubdomains r,
    domainOf args = Some domain /\ domain <> EmptyString /\
    fetchCrtSh (fetch w) domain = Done crtSubdomains /\
    enumerateSubdomains w domain = Done r /\
    main args w
    = Done {| stdout :=
                if jsonOutputOf args then [JsonDump r]
                else Text <$> (preamble domain (length crtSubdomains)
                                 (length (Report.subdomains r))
                               ++ (progress <$> Report.alive r)
                               ++ printSummary r);
              stderr := [];
              exit_code := 0 |}.
Proof.
  unfold main. destruct (domainOf args) as [domain|] eqn:Hd; [|by right; left].
  case_decide as Hempty; [by right; left|].
  destruct (enumerateLogged_cases (jsonOutputOf args) COMMON_SUBDOMAINS 20 w domain)
    as [[-> _]|(crt & dispatched & r & Hcrt & Hrun & _ & _ & -> & _)];
    [by left|].
  right. right. exists domain, crt, r. split_and!; try done.
  cbn [mbind outcome_bind lr_stdout lr_report]. unfold told.
  destruct (jsonOutputOf args); [done|].
  by rewrite <- !fmap_app, <- app_assoc.
Qed.

Lemma jsonOutputOf_true args : jsonOutputOf args = true <-> "--json" ∈ args.
Proof. unfold jsonOutputOf. apply bool_decide_eq_true. Qed.

Lemma is_flag_json : is_flag "--json".
Proof. reflexivity. Qed.

(** * Further results *)

(** X1.  The program writes the usage line to the error stream and exits
    with code 1, writing nothing else, exactly when every argument starts
    with two dashes or the first argument that does not is the empty
    string. *)
Theorem X1_usage_exit (args : list string) (w : world) :
  (Forall is_flag args \/
   exists pre post, args = pre ++ EmptyString :: post /\ Forall is_flag pre)
  <-> main args w = Done usage_exit.
Proof.
  split.
  - intros [Hflags|(pre & post & -> & Hpre)]; unfold main.
    + apply domainOf_None in Hflags. by rewrite Hflags.
    + assert (domainOf (pre ++ EmptyString :: post) = Some EmptyString) as ->.
      { apply domainOf_Some. exists pre, post. by split_and!. }
      by rewrite decide_True.
  - intros Hmain. destruct (domainOf args) as [domain|] eqn:Hd.
    + destruct (decide (domain = EmptyString)) as [->|Hne].
      * right. apply domainOf_Some in Hd as (pre & post & -> & Hpre & _).
        by exists pre, post.
      * exfalso. unfold main in Hmain. rewrite Hd, decide_False in Hmain by done.
        destruct (enumerateLogged _ _ _ _ _); cbn in Hmain; [|done..].
        by injection Hmain.
    + left. by apply domainOf_None.
Qed.

(** X2.  Of the command line only the first argument without leading
    dashes and the presence of [--json] matter: flags before it, other
    flags anywhere and every later argument are ignored. *)
Theorem X2_first_positional_and_json (pre post : list string) (domain : string)
    (w : world) :
  Forall is_flag pre -> ~ is_flag domain ->
  main (pre ++ domain :: post) w
  = main (if bool_decide ("--json" ∈ pre ++ post) then ["--json"; domain]
          else [domain]) w.
Proof.
  intros Hpre Hdomain.
  assert (domain <> "--json") as Hne by (intros ->; apply Hdomain, is_flag_json).
  assert (domainOf (pre ++ domain :: post) = Some domain) as Hd.
  { apply domainOf_Some. by exists pre, post. }
  assert (jsonOutputOf (pre ++ domain :: post)
          = bool_decide ("--json" ∈ pre ++ post)) as Hj.
  { unfold jsonOutputOf. apply bool_decide_ext.
    rewrite !elem_of_app, elem_of_cons. naive_solver. }
  unfold main at 1. rewrite Hd, Hj.
  destruct (bool_decide ("--json" ∈ pre ++ post)); cbv iota.
  - unfold main. assert (domainOf ["--json"; domain] = Some domain) as ->.
    { apply domainOf_Some. exists ["--json"], []. split_and!; [done| |done].
      constructor; [apply is_flag_json|constructor]. }
    assert (jsonOutputOf ["--json"; domain] = true) as ->; [|done].
    apply jsonOutputOf_true, elem_of_cons. by left.
  - unfold main. assert (domainOf [domain] = Some domain) as ->.
    { apply domainOf_Some. exists [], []. split_and!; [done|constructor|done]. }
    assert (jsonOutputOf [domain] = false) as ->; [|done].
    apply bool_decide_eq_false. intros Heq%list_elem_of_singleton. congruence.
Qed.

Lemma X2_first_positional_and_json_witness :
  main ["--verbose"; "--json"; "example.com"; "other.org"; "--depth"] sample_world
  = main ["--json"; "example.com"] sample_world.
Proof.
  apply (X2_first_positional_and_json ["--verbose"; "--json"]
           ["other.org"; "--depth"] "example.com" sample_world).
  - repeat constructor.
  - by intros ?.
Defined.

(** X3.  For a response whose records all carry a string [name_value], the
    source returns the normal forms of all lines of all records that pass
    the filter, each once, in the order of first appearance. *)
Theorem X3_kept_names_once_in_order (fetch : string -> outcome response)
    (domain : string) (entries : list json) :
  fetch (crtShUrl domain)
    = Done {| ok := true; body_json := Done (JArray entries) |} ->
  Forall (fun entry => name_value_is_string entry = true) entries ->
  exists names,
    fetchCrtSh fetch domain = Done names /\
    names = new_Set (filter (fun n => keepName domain n = true)
                       (normalizeName <$> raw_names entries)) /\
    NoDup names /\
    (forall n, n ∈ names <->
       keepName domain n = true /\
       exists raw, raw ∈ raw_names entries /\ n = normalizeName raw).
Proof.
  intros Hfetch Hwf. eexists. split; [by apply fetchCrtSh_wellformed|].
  split; [done|]. split; [apply NoDup_new_Set|].
  intros n. rewrite elem_of_new_Set, list_elem_of_filter, list_elem_of_fmap.
  naive_solver.
Qed.

Lemma X3_kept_names_once_in_order_witness :
  exists names,
    fetchCrtSh (serving ["B.example.com"; String.append "a.example.com" (String LF "*.b.example.com")])
               "example.com" = Done names /\
    names = new_Set (filter (fun n => keepName "example.com" n = true)
                       (normalizeName
                          <$> raw_names
                                [JObject [("name_value", JString "B.example.com")];
                                 JObject [("name_value",
                                           JString (String.append "a.example.com"
                                                      (String LF "*.b.example.com")))]])) /\
    NoDup names /\
    (forall n, n ∈ names <->
       keepName "example.com" n = true /\
       exists raw,
         raw ∈ raw_names
                 [JObject [("name_value", JString "B.example.com")];
                  JObject [("name_value",
                            JString (String.append "a.example.com"
                                       (String LF "*.b.example.com")))]] /\
         n = normalizeName raw).
Proof.
  apply (X3_kept_names_once_in_order _ "example.com"
           [JObject [("name_value", JString "B.example.com")];
            JObject [("name_value",
                      JString (String.append "a.example.com"
                                 (String LF "*.b.example.com")))]]).
  - reflexivity.
  - repeat constructor.
Defined.

(** X4.  Every name the source returns is in lower case and has no white
    space at either end. *)
Theorem X4_names_are_normalised (fetch : string -> outcome response)
    (domain : string) (names : list string) (n : string) :
  fetchCrtSh fetch domain = Done names -> n ∈ names ->
  toLowerCase n = n /\ trim n = n.
Proof.
  intros Hrun Hn.
  destruct (fetchCrtSh_elem domain fetch names n Hrun Hn) as (raw & -> & _).
  split; [apply toLowerCase_normalizeName|apply trim_normalizeName].
Qed.

Lemma X4_names_are_normalised_witness :
  fetchCrtSh (serving ["  WWW.Example.COM "]) "example.com"
    = Done ["www.example.com"] /\
  toLowerCase "www.example.com" = "www.example.com" /\
  trim "www.example.com" = "www.example.com".
Proof.
  split; [reflexivity|].
  apply (X4_names_are_normalised (serving ["  WWW.Example.COM "]) "example.com"
           ["www.example.com"] "www.example.com").
  - reflexivity.
  - by apply list_elem_of_singleton.
Defined.

(** X5.  For a domain that is not in lower case the source returns no name
    at all: the names are compared in lower case with the domain as
    given. *)
Theorem X5_upper_case_domain_keeps_nothing (fetch : string -> outcome response)
    (domain : string) (names : list string) :
  toLowerCase domain <> domain ->
  fetchCrtSh fetch domain = Done names ->
  names = [].
Proof.
  intros Hcase Hrun. destruct names as [|n names]; [done|]. exfalso.
  destruct (fetchCrtSh_elem domain fetch (n :: names) n Hrun) as (raw & Hn & Hkept).
  { apply elem_of_cons. by left. }
  apply keepName_spec in Hkept as [[p Hp] _]. apply Hcase.
  apply (lower_suffix_lower n p); [|done].
  rewrite Hn. apply toLowerCase_normalizeName.
Qed.

Lemma X5_upper_case_domain_keeps_nothing_witness :
  fetchCrtSh (serving ["www.example.com"; "www.Example.com"]) "Example.com"
    = Done [] /\
  @nil string = [].
Proof.
  split; [reflexivity|].
  apply (X5_upper_case_domain_keeps_nothing
           (serving ["www.example.com"; "www.Example.com"]) "Example.com" []).
  - by intros ?.
  - reflexivity.
Defined.

(** X6.  A record whose [name_value] holds two texts on separate lines
    counts as two records, one per text. *)
Theorem X6_lines_are_records (domain : string) (pre post : list string)
    (a b : string) :
  fetchCrtSh (serving (pre ++ (a +:+ NL +:+ b) :: post)) domain
  = fetchCrtSh (serving (pre ++ a :: b :: post)) domain.
Proof.
  rewrite !fetchCrtSh_serving. do 3 f_equal.
  rewrite !bind_app, !bind_cons.
  change (NL +:+ b) with (String LF b). by rewrite split_app, <- app_assoc.
Qed.

(** X7.  In every report of the program the bruteforce tally is 81, and
    the candidates number 82 (the root and the 81 bruteforce names) plus
    the certificate names that are neither: at least 82 and at most 82
    plus the certificate tally. *)
Theorem X7_total_found (w : world) (targetDomain : string) (r : Report.t) :
  enumerateSubdomains w targetDomain = Done r ->
  exists crtSubdomains,
    fetchCrtSh (fetch w) targetDomain = Done crtSubdomains /\
    Report.sources r = [("crt.sh", length crtSubdomains); ("bruteforce", 81)] /\
    Summary.total_found (Report.summary r)
    = 82 + length (filter (fun n => n ∉ targetDomain
                                       :: bruteforce COMMON_SUBDOMAINS targetDomain)
                     crtSubdomains) /\
    82 <= Summary.total_found (Report.summary r) <= 82 + length crtSubdomains.
Proof.
  intros Hrun. unfold enumerateSubdomains in Hrun.
  destruct (enumerateWith_cases w COMMON_SUBDOMAINS 20 targetDomain)
    as [Hp|(crt & Hcrt & [Hnd _] & Hspec)]; [congruence|].
  cbv zeta in Hspec. rewrite Hspec in Hrun.
  apply (inj Done) in Hrun as <-.
  exists crt. split; [exact Hcrt|]. split; [reflexivity|].
  cbn [Report.summary Summary.total_found].
  rewrite length_combineAndDedupe; [|done|].
  - rewrite length_bruteforce. change (length COMMON_SUBDOMAINS) with 81.
    split; [done|]. split; [lia|].
    pose proof (length_filter
                  (fun n => n ∉ targetDomain
                              :: bruteforce COMMON_SUBDOMAINS targetDomain) crt).
    lia.
  - constructor; [apply root_not_bruteforce|].
    apply NoDup_bruteforce, NoDup_COMMON_SUBDOMAINS.
Qed.

Lemma X7_total_found_witness :
  exists crtSubdomains,
    fetchCrtSh (fetch sample_world) "example.com" = Done crtSubdomains /\
    Report.sources sample_report
      = [("crt.sh", length crtSubdomains); ("bruteforce", 81)] /\
    Summary.total_found (Report.summary sample_report)
    = 82 + length (filter (fun n => n ∉ "example.com"
                                       :: bruteforce COMMON_SUBDOMAINS "example.com")
                     crtSubdomains) /\
    82 <= Summary.total_found (Report.summary sample_report)
       <= 82 + length crtSubdomains.
Proof.
  apply (X7_total_found sample_world "example.com" sample_report).
  vm_compute. reflexivity.
Defined.

(** X8.  Whatever the responses, the answers of the resolver, the order in
    which promises settle and the batch size, the enumeration never
    rejects: either it does not return, or it returns the report whose
    alive list is the resolving candidates in candidate order. *)
Theorem X8_never_rejects (words : list string) (batchSize : nat) (w : world)
    (targetDomain : string) :
  enumerateWith words batchSize w targetDomain = Pending \/
  exists crtSubdomains,
    fetchCrtSh (fetch w) targetDomain = Done crtSubdomains /\
    let allSubdomains :=
      combineAndDedupe targetDomain crtSubdomains (bruteforce words targetDomain) in
    enumerateWith words batchSize w targetDomain
    = Done (Report.make targetDomain (now w)
              [("crt.sh", length crtSubdomains); ("bruteforce", length words)]
              allSubdomains (alive_of w allSubdomains)
              (Summary.make (length allSubdomains)
                            (length (alive_of w allSubdomains)))).
Proof.
  destruct (enumerateWith_cases w words batchSize targetDomain)
    as [Hp|(crt & Hcrt & _ & Hspec)]; [by left|].
  right. by exists crt.
Qed.

(** X9.  In every returned report the alive entries are exactly the
    candidates the resolver answered for, each once and with the addresses
    it returned; so [alive_count] never exceeds [total_found]. *)
Theorem X9_alive_entries (words : list string) (batchSize : nat) (w : world)
    (targetDomain : string) (r : Report.t) :
  enumerateWith words batchSize w targetDomain = Done r ->
  NoDup (Alive.subdomain <$> Report.alive r) /\
  (forall subdomain addresses,
     Alive.make subdomain addresses ∈ Report.alive r <->
     subdomain ∈ Report.subdomains r /\ resolve4 w subdomain = Done addresses) /\
  Summary.alive_count (Report.summary r) <= Summary.total_found (Report.summary r).
Proof.
  intros Hrun.
  destruct (enumerateWith_cases w words batchSize targetDomain)
    as [Hp|(crt & Hcrt & _ & Hspec)]; [congruence|].
  cbv zeta in Hspec. rewrite Hspec in Hrun.
  apply (inj Done) in Hrun as <-.
  cbn [Report.alive Report.subdomains Report.summary
       Summary.alive_count Summary.total_found].
  split_and!.
  - rewrite alive_of_subdomains. apply NoDup_filter, NoDup_combine.
  - intros subdomain addresses. unfold alive_of.
    rewrite list_elem_of_fmap. setoid_rewrite list_elem_of_filter.
    unfold resolves, classify. split.
    + intros (s & [= -> ->] & Halive & Hin). split; [done|].
      by destruct (resolve4 w s).
    + intros [Hin Hres]. exists subdomain. rewrite Hres. by split.
  - unfold alive_of. rewrite length_fmap. apply length_filter.
Qed.

Lemma X9_alive_entries_witness :
  NoDup (Alive.subdomain <$> Report.alive sample_report) /\
  (forall subdomain addresses,
     Alive.make subdomain addresses ∈ Report.alive sample_report <->
     subdomain ∈ Report.subdomains sample_report /\
     resolve4 sample_world subdomain = Done addresses) /\
  Summary.alive_count (Report.summary sample_report)
    <= Summary.total_found (Report.summary sample_report).
Proof.
  apply (X9_alive_entries COMMON_SUBDOMAINS 20 sample_world "example.com"
           sample_report).
  vm_compute. reflexivity.
Defined.



(** X11.  With [--json] the program writes to standard output nothing but
    the report, as one JSON document, and exits with code 0; no progress
    line is written. *)
Theorem X11_json_mode_writes_one_document (args : list string) (w : world)
    (res : process_result) :
  "--json" ∈ args ->
  main args w = Done res ->
  res = usage_exit \/
  exists domain r,
    domainOf args = Some domain /\
    enumerateSubdomains w domain = Done r /\
    res = {| stdout := [JsonDump r]; stderr := []; exit_code := 0 |}.
Proof.
  intros Hjson%jsonOutputOf_true Hmain.
  destruct (main_cases args w)
    as [Hp|[Hu|(domain & crt & r & Hd & _ & _ & Hr & Hm)]]; [congruence| |].
  - left. congruence.
  - right. exists domain, r. split_and!; [done..|].
    rewrite Hjson in Hm. congruence.
Qed.

Lemma X11_json_mode_writes_one_document_witness :
  {| stdout := [JsonDump sample_report]; stderr := []; exit_code := 0 |}
    = usage_exit \/
  exists domain r,
    domainOf ["example.com"; "--json"] = Some domain /\
    enumerateSubdomains sample_world domain = Done r /\
    {| stdout := [JsonDump sample_report]; stderr := []; exit_code := 0 |}
    = {| stdout := [JsonDump r]; stderr := []; exit_code := 0 |}.
Proof.
  apply (X11_json_mode_writes_one_document ["example.com"; "--json"] sample_world).
  - apply (bool_decide_unpack _). by vm_compute.
  - vm_compute. reflexivity.
Defined.

(** X12.  Without [--json] a completed run writes, in this order: the six
    opening lines with the certificate tally and the candidate count, one
    progress line per alive entry in the order of the alive list, and the
    summary of the report; it exits with code 0. *)
Theorem X12_text_mode_output (args : list string) (w : world)
    (res : process_result) :
  "--json" ∉ args ->
  main args w = Done res ->
  res = usage_exit \/
  exists domain crtSubdomains r,
    domainOf args = Some domain /\
    fetchCrtSh (fetch w) domain = Done crtSubdomains /\
    enumerateSubdomains w domain = Done r /\
    res = {| stdout :=
               Text <$> (preamble domain (length crtSubdomains)
                           (Summary.total_found (Report.summary r))
                         ++ (progress <$> Report.alive r)
                         ++ printSummary r);
             stderr := [];
             exit_code := 0 |}.
Proof.
  intros Hjson Hmain.
  assert (jsonOutputOf args = false) as Hj.
  { apply not_true_iff_false. by rewrite jsonOutputOf_true. }
  destruct (main_cases args w)
    as [Hp|[Hu|(domain & crt & r & Hd & _ & Hcrt & Hr & Hm)]]; [congruence| |].
  - left. congruence.
  - right. exists domain, crt, r. split_and!; [done..|].
    rewrite Hj in Hm. rewrite Hm in Hmain. apply (inj Done) in Hmain as <-.
    do 4 f_equal.
    destruct (enumerateWith_inv _ _ _ _ _ Hr) as (crt' & alive' & _ & _ & ->).
    reflexivity.
Qed.

Lemma X12_text_mode_output_witness :
  let res :=
    {| stdout :=
         Text <$> (preamble "example.com" 3 83
                   ++ ["    [+] example.com -> 93.184.216.34"]
                   ++ printSummary sample_report);
       stderr := [];
       exit_code := 0 |} in
  res = usage_exit \/
  exists domain crtSubdomains r,
    domainOf ["example.com"] = Some domain /\
    fetchCrtSh (fetch sample_world) domain = Done crtSubdomains /\
    enumerateSubdomains sample_world domain = Done r /\
    res = {| stdout :=
               Text <$> (preamble domain (length crtSubdomains)
                           (Summary.total_found (Report.summary r))
                         ++ (progress <$> Report.alive r)
                         ++ printSummary r);
             stderr := [];
             exit_code := 0 |}.
Proof.
  apply (X12_text_mode_output ["example.com"] sample_world).
  - apply (bool_decide_unpack _). by vm_compute.
  - vm_compute. reflexivity.
Defined.

Lemma for_of_units_raise domain s acc :
  s <> EmptyString ->
  for_of (JString <$> units s) (visitEntry domain) acc = Raise TypeError.
Proof. intros Hs. by destruct s. Qed.

(** X13.  A body that parses to anything but an array (an object, a
    string, a number, a boolean, [null]) yields no name. *)
Theorem X13_non_array_body_yields_nothing (fetch : string -> outcome response)
    (domain : string) (data : json) :
  fetch (crtShUrl domain) = Done {| ok := true; body_json := Done data |} ->
  is_array data = false ->
  fetchCrtSh fetch domain = Done [].
Proof.
  intros Hfetch Harray. unfold fetchCrtSh, fetchCrtSh_body. rewrite Hfetch. cbn.
  destruct data as [| | |s|items|props]; try done.
  destruct s as [|c s]; [done|]. cbn [iterate mbind outcome_bind].
  by rewrite for_of_units_raise.
Qed.

Lemma X13_non_array_body_yields_nothing_witness :
  fetchCrtSh
    (fun _ => Done {| ok := true;
                      body_json :=
                        Done (JObject [("error", JString "www.example.com")]) |})
    "example.com"
  = Done [].
Proof.
  apply (X13_non_array_body_yields_nothing _ "example.com"
           (JObject [("error", JString "www.example.com")])).
  - reflexivity.
  - reflexivity.
Defined.

Lemma app_assoc_string s t u : (s +:+ t) +:+ u = s +:+ (t +:+ u).
Proof. induction s as [|c s IH]; [done|]. by rewrite !app_cons, IH. Qed.

(** X14.  Every candidate of a report of the program has the domain as a
    suffix; and when the domain is in lower case, so is every candidate. *)
Theorem X14_candidates_end_with_domain (w : world) (targetDomain : string)
    (r : Report.t) (candidate : string) :
  enumerateSubdomains w targetDomain = Done r ->
  candidate ∈ Report.subdomains r ->
  endsWith candidate targetDomain = true /\
  (toLowerCase targetDomain = targetDomain -> toLowerCase candidate = candidate).
Proof.
  intros (crt & alive & Hcrt & _ & ->)%enumerateWith_inv Hin.
  cbn [Report.subdomains] in Hin.
  apply elem_of_combine in Hin as [->|[Hin|Hin]].
  - split; [|done]. apply endsWith_spec. by exists EmptyString.
  - destruct (fetchCrtSh_elem _ _ _ _ Hcrt Hin) as (raw & -> & Hkept). split.
    + unfold keepName in Hkept. by apply andb_true_iff in Hkept as [? _].
    + intros _. apply toLowerCase_normalizeName.
  - unfold bruteforce in Hin. apply list_elem_of_fmap in Hin as (s & -> & Hs).
    split.
    + apply endsWith_spec. exists (s +:+ "."). by rewrite app_assoc_string.
    + intros Hlower. rewrite !toLowerCase_app, Hlower. do 1 f_equal.
      by eapply Forall_forall in Hs; [|apply COMMON_SUBDOMAINS_lower].
Qed.

Lemma X14_candidates_end_with_domain_witness :
  endsWith "evil-example.com" "example.com" = true /\
  (toLowerCase "example.com" = "example.com" ->
   toLowerCase "evil-example.com" = "evil-example.com").
Proof.
  apply (X14_candidates_end_with_domain sample_world "example.com" sample_report).
  - vm_compute. reflexivity.
  - apply (bool_decide_unpack _). by vm_compute.
Defined.
